(** * FP-Growth association rule mining (nokia/arm-go): a shallow embedding

    Sources: [src/arm.go] (the importable package: [MineAssociationRules],
    [countItems], [generateFrequentItemsets], [writeItemsets], [writeRules]),
    [src/unnamed/part_000] ([Arguments], [Validate]) and [src/unnamed/part_001]
    (the command-line program with the parallel miner: [master], [worker],
    [frequentItemsInTree], [parallelFpGrowth]).

    Go's [float64] is IEEE binary64, which is Rocq's primitive [float]
    ([PrimFloat]); Go's [int] is written as [Z]. *)

From Stdlib Require Import ZArith List Bool String Ascii Permutation Sorted Lia QArith.
From Corelib Require Import PrimFloat SpecFloat FloatOps FloatAxioms.
Import ListNotations.
Open Scope Z_scope.
Set Warnings "-register-all,-abstract-large-number".

(* ------------------------------------------------------------------ *)
(** ** Items, item counts and the item interner *)

(** [type Item int] *)
Definition Item := Z.

(** [itemCount]: a map from [Item] to a count; [get] of an unknown item is 0.
    Modelled from the spec: [itemCount] ([makeCounts], [increment], [get]) is
    not in src/; the spec (section 3, ItemCount) gives its interface. *)
Definition itemCount := list (Item * Z).

Definition makeCounts : itemCount := [].

Fixpoint get (c : itemCount) (i : Item) : Z :=
  match c with
  | [] => 0
  | (j, n) :: c' => if Z.eqb i j then n else get c' i
  end.

Fixpoint increment (c : itemCount) (i : Item) (n : Z) : itemCount :=
  match c with
  | [] => [(i, n)]
  | (j, m) :: c' => if Z.eqb i j then (j, m + n) :: c' else (j, m) :: increment c' i n
  end.

(** Modelled from the spec: the interner [Itemizer] is not in src/.  Section
    4.1 of the spec: [intern] is idempotent and assigns a fresh dense id on
    first sight; [toStr] maps an id back to its token; [cmp] is a strict total
    order, the "lexicographic" tie break of the source's comment, i.e. the
    order of the tokens.  Ids are positions in [tokens], from 0.  Empty tokens
    (what [strings.Split] yields for an empty line) are no items (section 6:
    empty lines contribute no items). *)
Record Itemizer := mkItemizer { tokens : list string }.

Definition newItemizer : Itemizer := mkItemizer [].

Fixpoint index_of (s : string) (l : list string) (k : Z) : option Z :=
  match l with
  | [] => None
  | t :: l' => if String.eqb s t then Some k else index_of s l' (k + 1)
  end.

Definition lookupItem (it : Itemizer) (s : string) : option Item :=
  index_of s (tokens it) 0.

Definition intern (it : Itemizer) (s : string) : Itemizer * Item :=
  match lookupItem it s with
  | Some i => (it, i)
  | None => (mkItemizer (tokens it ++ [s]), Z.of_nat (List.length (tokens it)))
  end.

Definition toStr (it : Itemizer) (i : Item) : string :=
  nth (Z.to_nat i) (tokens it) EmptyString.

Definition cmp (it : Itemizer) (a b : Item) : bool :=
  String.ltb (toStr it a) (toStr it b).

(** [itemizer.forEachItem(tokens, fn)], with the callback's effect on the
    counter threaded through. *)
Fixpoint forEachItem (it : Itemizer) (toks : list string)
    (fn : itemCount -> Item -> itemCount) (acc : itemCount) : Itemizer * itemCount :=
  match toks with
  | [] => (it, acc)
  | t :: toks' =>
      if String.eqb t EmptyString then forEachItem it toks' fn acc
      else let (it', i) := intern it t in forEachItem it' toks' fn (fn acc i)
  end.

(** [itemizer.filter(tokens, pred)]: the Items of the tokens that pass [pred]. *)
Fixpoint itemizerFilter (it : Itemizer) (toks : list string) (pred : Item -> bool)
    : list Item :=
  match toks with
  | [] => []
  | t :: toks' =>
      match lookupItem it t with
      | Some i => if pred i then i :: itemizerFilter it toks' pred
                  else itemizerFilter it toks' pred
      | None => itemizerFilter it toks' pred
      end
  end.

(** Go's [strings.Split(s, ",")]: the pieces between commas; [Split("", ",")]
    is [[""]]. *)
Fixpoint splitComma_aux (s cur : string) : list string :=
  match s with
  | EmptyString => [cur]
  | String c s' =>
      if Ascii.eqb c ","%char then cur :: splitComma_aux s' EmptyString
      else splitComma_aux s' (String.append cur (String c EmptyString))
  end.

Definition splitComma (s : string) : list string := splitComma_aux s EmptyString.

(* ------------------------------------------------------------------ *)
(** ** Arguments and [Validate] (part_000) *)

Inductive error :=
| ErrMinSupportOutOfRange
| ErrMinConfidenceOutOfRange
| ErrMinLiftOutOfRange
| ErrOpen (path : string)      (** [os.Open] failed *)
| ErrScan (path : string)      (** [scanner.Err()] reported a read error *)
| ErrCreate (path : string)    (** [os.Create] failed *)
| ErrWrite (path : string).    (** a write or the final [Flush] failed *)

Record Arguments := mkArguments {
  Input : string;
  Output : string;
  MinSupport : float;
  MinConfidence : float;
  MinLift : float;
  ItemsetsPath : string
}.

(** [func (args Arguments) Validate() error]; [None] is [nil].  Go's [<], [>]
    and [!=] on [float64] are IEEE comparisons. *)
Definition Validate (args : Arguments) : option error :=
  if (PrimFloat.ltb (MinSupport args) 0%float || PrimFloat.ltb 1%float (MinSupport args))%bool
  then Some ErrMinSupportOutOfRange
  else if (PrimFloat.ltb (MinConfidence args) 0%float
           || PrimFloat.ltb 1%float (MinConfidence args))%bool
  then Some ErrMinConfidenceOutOfRange
  else if (negb (PrimFloat.eqb (MinLift args) 0%float)
           && PrimFloat.ltb (MinLift args) 1%float)%bool
  then Some ErrMinLiftOutOfRange
  else None.

(* ------------------------------------------------------------------ *)
(** ** The support threshold *)

(** [float64(n)] for a count [0 <= n < 2^63]. *)
Definition float64_of_int (n : Z) : float := PrimFloat.of_uint63 (Uint63Axioms.of_Z n).

(** The exact ceiling of a finite float, from its binary representation
    [(-1)^s * m * 2^e].  This is [int(math.Ceil(x))]: [math.Ceil] of a finite
    float is an integral float and the conversion to [int] is exact for the
    values at hand.  For NaN and infinities Go's conversion is
    implementation-defined; on amd64 it yields the minimal [int64]. *)
Definition ceil_int (x : float) : Z :=
  match Prim2SF x with
  | S754_zero _ => 0
  | S754_finite s m e =>
      let v := if s then Z.neg m else Z.pos m in
      if Z.leb 0 e then v * 2 ^ e else - (Z.div (- v) (2 ^ (- e)))
  | _ => - 2 ^ 63
  end.

(** [minCount := max(1, int(math.Ceil(minSupport*float64(numTransactions))))] *)
Definition minCountOf (minSupport : float) (numTransactions : Z) : Z :=
  Z.max 1 (ceil_int (PrimFloat.mul minSupport (float64_of_int numTransactions))).

(** The pass-2 filter: [frequency.get(i) >= minCount]. *)
Definition isFrequentItem (frequency : itemCount) (minCount : Z) (i : Item) : bool :=
  Z.leb minCount (get frequency i).

(* ------------------------------------------------------------------ *)
(** ** The FP-tree

    Modelled from the spec: the FP-tree ([fpTree], [newTree], [Insert],
    [makeConditionalTree], the header table [itemList]) is code of this
    repository that is not in src/; sections 3, 4.2 and 4.3 of the spec
    describe it.  A node is written as a value holding its children (the
    parent pointer is the path from the root); the header chain of an item
    is the list of its nodes, each with the items of its ancestors (root
    excluded) and its count.  The chain is enumerated in tree order rather
    than in most-recent-first order: the spec leaves the order unspecified
    (section 9), and it only changes the order of insertion into a
    conditional tree.  The key set of [itemList] is kept as a list of the
    items that have nodes, in order of first appearance; Go's map iteration
    order over it is unspecified. *)
Inductive fpNode := FPNode { item : Item; count : Z; children : list fpNode }.

Record fpTree := mkTree {
  rootCount : Z;                (** [tree.root.count] *)
  rootChildren : list fpNode;   (** [tree.root.children] *)
  itemList : list Item;         (** the keys of [tree.itemList] *)
  counts : itemCount            (** [tree.counts] *)
}.

Definition newTree : fpTree := mkTree 0 [] [] makeCounts.

(** Walking [path] down from a node's children: an existing child of the
    item gets [weight] added, an absent one is created. *)
Fixpoint insertChildren (cs : list fpNode) (path : list Item) (weight : Z) : list fpNode :=
  match path with
  | [] => cs
  | x :: rest =>
      (fix go (cs : list fpNode) : list fpNode :=
         match cs with
         | [] => [FPNode x weight (insertChildren [] rest weight)]
         | FPNode y c ch :: cs' =>
             if Z.eqb x y then FPNode y (c + weight) (insertChildren ch rest weight) :: cs'
             else FPNode y c ch :: go cs'
         end) cs
  end.

Definition addKey (l : list Item) (x : Item) : list Item :=
  if existsb (Z.eqb x) l then l else app l [x].

(** [tree.Insert(path, weight)]: the root and every node on the path gain
    [weight]; [counts[item]] gains [weight] for every item of the path. *)
Definition Insert (t : fpTree) (path : list Item) (weight : Z) : fpTree :=
  mkTree (rootCount t + weight)
         (insertChildren (rootChildren t) path weight)
         (fold_left addKey path (itemList t))
         (fold_left (fun c x => increment c x weight) path (counts t)).

(** Every node below a node: (ancestor items, item, count). *)
Fixpoint nodeOcc (anc : list Item) (n : fpNode) : list (list Item * Item * Z) :=
  match n with
  | FPNode x c ch => (anc, x, c) :: flat_map (nodeOcc (app anc [x])) ch
  end.

Definition allOcc (t : fpTree) : list (list Item * Item * Z) :=
  flat_map (nodeOcc []) (rootChildren t).

(** [tree.itemList[i]]: the nodes of item [i], as (path from the root, count). *)
Definition itemChain (t : fpTree) (i : Item) : list (list Item * Z) :=
  map (fun '(anc, _, c) => (anc, c))
      (filter (fun '(_, x, _) => Z.eqb x i) (allOcc t)).

(** [makeConditionalTree(tree, tree.itemList[i])]: every node of [i]
    contributes the path of its ancestors, weighted by its count, to a fresh
    tree. *)
Definition makeConditionalTree (t : fpTree) (i : Item) : fpTree :=
  fold_left (fun ct '(p, c) => Insert ct p c) (itemChain t i) newTree.

(** [frequentItemsInTree] (part_001, lines 172-180): the keys of
    [tree.itemList] whose [tree.counts] exceed [minCount] (strictly). *)
Definition frequentItemsInTree (t : fpTree) (minCount : Z) : list Item :=
  filter (fun i => Z.ltb minCount (get (counts t) i)) (itemList t).

(** The tree's height, the measure on which the mining recursion descends. *)
Fixpoint nodeHeight (n : fpNode) : nat :=
  match n with
  | FPNode _ _ ch => S (fold_right (fun n' h => Nat.max (nodeHeight n') h) O ch)
  end.

Definition treeHeight (t : fpTree) : nat :=
  fold_right (fun n h => Nat.max (nodeHeight n) h) O (rootChildren t).

(** [itemsetWithCount] *)
Record itemsetWithCount := mkIWC { itemset : list Item; iwcCount : Z }.

(** Modelled from the spec: [appendSorted] is not in src/; section 9:
    [prefix] with [item] added, kept sorted by [cmp]. *)
Fixpoint appendSorted (lt : Item -> Item -> bool) (prefix : list Item) (x : Item) : list Item :=
  match prefix with
  | [] => [x]
  | y :: prefix' => if lt x y then x :: y :: prefix' else y :: appendSorted lt prefix' x
  end.

(* ------------------------------------------------------------------ *)
(** ** The two passes over the input

    A file is modelled by the lines its [bufio.Scanner] yields. *)

(** [countItems], after [os.Open] succeeded: one transaction per line, and
    [frequency.increment(item, 1)] for every item of it. *)
Definition countLines (lines : list string) : Itemizer * itemCount * Z :=
  fold_left
    (fun '(it, freq, n) line =>
       let (it', freq') :=
         forEachItem it (splitComma line) (fun c i => increment c i 1) freq in
       (it', freq', n + 1))
    lines (newItemizer, makeCounts, 0).

(** The [less] function handed to [sort.SliceStable]: decreasing frequency,
    ties broken by [cmp]. *)
Definition lessByFreq (freq : Item -> Z) (lt : Item -> Item -> bool) (a b : Item) : bool :=
  if Z.eqb (freq a) (freq b) then lt a b else Z.gtb (freq a) (freq b).

(** [sort.SliceStable(xs, less)].  A stable sort's result is fixed by [less]
    whenever [less] is a strict weak order; it is written here as insertion
    sort, each element placed after the elements it is not [less] than. *)
Fixpoint insertStable (less : Item -> Item -> bool) (x : Item) (l : list Item) : list Item :=
  match l with
  | [] => [x]
  | y :: l' => if less x y then x :: y :: l' else y :: insertStable less x l'
  end.

Definition sortStable (less : Item -> Item -> bool) (l : list Item) : list Item :=
  fold_left (fun acc x => insertStable less x acc) l [].

(** The body of the pass-2 loop of [generateFrequentItemsets] (arm.go lines
    157-177, part_001 lines 233-253) for one scanned line. *)
Definition processTransaction (it : Itemizer) (frequency : itemCount) (minCount : Z)
    (tree : fpTree) (line : string) : fpTree :=
  let transaction :=
    itemizerFilter it (splitComma line) (isFrequentItem frequency minCount) in
  match transaction with
  | [] => tree
  | _ => Insert tree (sortStable (lessByFreq (get frequency) (cmp it)) transaction) 1
  end.

(** The pass-2 loop: the initial FP-tree. *)
Definition buildTree (it : Itemizer) (frequency : itemCount) (minCount : Z)
    (lines : list string) : fpTree :=
  fold_left (processTransaction it frequency minCount) lines newTree.

(** Modelled from the spec: the sequential miner [fpGrowth] called by arm.go
    (line 182) is not in src/.  Section 4.3: for each item frequent in the
    tree (the core's [frequentItemsInTree]), emit [appendSorted(prefix, i)]
    with the conditional tree's root count and recurse on the conditional
    tree.  The recursion descends on the tree's height, given as fuel. *)
Fixpoint fpGrowthFuel (fuel : nat) (lt : Item -> Item -> bool) (minCount : Z)
    (t : fpTree) (prefix : list Item) : list itemsetWithCount :=
  match fuel with
  | O => []
  | S f =>
      flat_map (fun i =>
                  let ct := makeConditionalTree t i in
                  let p := appendSorted lt prefix i in
                  mkIWC p (rootCount ct) :: fpGrowthFuel f lt minCount ct p)
               (frequentItemsInTree t minCount)
  end.

Definition fpGrowth (lt : Item -> Item -> bool) (t : fpTree) (prefix : list Item)
    (minCount : Z) : list itemsetWithCount :=
  fpGrowthFuel (S (treeHeight t)) lt minCount t prefix.

(* ------------------------------------------------------------------ *)
(** ** The parallel miner (part_001, lines 119-222)

    One master, a pool of workers, the buffered channels [toWorker]
    ([wc], capacity 10000) and [fromWorker] ([mc], capacity 10000), and the
    unbuffered [output] channel drained by a collector goroutine.

    A state records the master's stack [tasks] (its top, Go's
    [tasks[len(tasks)-1]], at the head of the list), [outstandingJobs], the
    contents of both channel buffers (oldest first), whether [toWorker] is
    closed, each worker's control point, the itemsets the collector has
    received, and whether the master loop runs, has returned, or panicked.
    The collector is always ready to receive, so a worker's send on [output]
    is taken together with its receive and its computation. *)
Record workerTask := mkWT { wtTree : fpTree; wtItem : Item; wtItemset : list Item }.

Record masterTask := mkMT { mtTree : fpTree; mtItemset : list Item; mtItems : list Item }.

Inductive masterPhase := MRunning | MDone | MPanicked.

(** A worker waits on [fromMaster] ([WIdle]), waits to send its
    [masterTask] on [toMaster] ([WSending]), or has left its loop. *)
Inductive workerState := WIdle | WSending (mt : masterTask) | WExited.

Record schedState := mkSched {
  tasks : list masterTask;
  outstandingJobs : Z;
  toWorker : list workerTask;
  toWorkerClosed : bool;
  fromWorker : list masterTask;
  workers : list workerState;
  collected : list itemsetWithCount;
  phase : masterPhase
}.

Fixpoint replaceAt {A : Type} (k : nat) (x : A) (l : list A) : list A :=
  match l, k with
  | [], _ => []
  | _ :: l', O => x :: l'
  | y :: l', S k' => y :: replaceAt k' x l'
  end.

Section Scheduler.

Variable lt : Item -> Item -> bool.   (** [itemizer.cmp], used by [appendSorted] *)
Variable minCount : Z.
Variables capTo capFrom : nat.        (** the channel capacities (10000 each) *)

(** The body of [worker]'s loop for one received task: the itemset it sends
    on [output] and the [masterTask] it sends back. *)
Definition workerRun (task : workerTask) : itemsetWithCount * masterTask :=
  let conditionalTree := makeConditionalTree (wtTree task) (wtItem task) in
  let is := appendSorted lt (wtItemset task) (wtItem task) in
  (mkIWC is (rootCount conditionalTree),
   mkMT conditionalTree is (frequentItemsInTree conditionalTree minCount)).

(** [master]'s initial stack and counter, every worker waiting. *)
Definition initSched (initialTree : fpTree) (numWorkers : nat) : schedState :=
  mkSched [mkMT initialTree [] (frequentItemsInTree initialTree minCount)] 0
          [] false [] (repeat WIdle numWorkers) [] MRunning.

(** [if len(task.items) > 0 { tasks = append(tasks, task) }] *)
Definition pushIfItems (m : masterTask) (ts : list masterTask) : list masterTask :=
  match mtItems m with [] => ts | _ => m :: ts end.

Inductive step : schedState -> schedState -> Prop :=
(** [nextWorkerTask] reads [lastTask.items[0]]: an index-out-of-range panic
    when the top task has no items. *)
| StepPanic : forall t ts o tw c fw ws out,
    mtItems t = [] ->
    step (mkSched (t :: ts) o tw c fw ws out MRunning)
         (mkSched (t :: ts) o tw c fw ws out MPanicked)
(** [select], case [task := <-fromWorker]. *)
| StepRecv : forall t i is ts o tw c m fw ws out,
    mtItems t = i :: is ->
    step (mkSched (t :: ts) o tw c (m :: fw) ws out MRunning)
         (mkSched (pushIfItems m (t :: ts)) (o - 1) tw c fw ws out MRunning)
(** [select], case [toWorker <- nextWorkerTask]. *)
| StepSend : forall t i is ts o tw c fw ws out,
    mtItems t = i :: is ->
    (List.length tw < capTo)%nat ->
    step (mkSched (t :: ts) o tw c fw ws out MRunning)
         (mkSched (match is with
                   | [] => ts
                   | _ => mkMT (mtTree t) (mtItemset t) is :: ts
                   end)
                  (o + 1) (app tw [mkWT (mtTree t) i (mtItemset t)]) c fw ws out MRunning)
(** No task left but jobs outstanding: [task := <-fromWorker]. *)
| StepIdleRecv : forall o tw c m fw ws out,
    0 < o ->
    step (mkSched [] o tw c (m :: fw) ws out MRunning)
         (mkSched (pushIfItems m []) (o - 1) tw c fw ws out MRunning)
(** The loop condition fails: [close(toWorker)] and return. *)
| StepClose : forall o tw c fw ws out,
    o <= 0 ->
    step (mkSched [] o tw c fw ws out MRunning)
         (mkSched [] o tw true fw ws out MDone)
(** A worker receives a task, builds its conditional tree and sends the
    itemset on [output]. *)
| StepWorkerRun : forall k ts o wt tw c fw ws out ph,
    nth_error ws k = Some WIdle ->
    step (mkSched ts o (wt :: tw) c fw ws out ph)
         (mkSched ts o tw c fw (replaceAt k (WSending (snd (workerRun wt))) ws)
                  (app out [fst (workerRun wt)]) ph)
(** A worker's [toMaster <- masterTask{...}]. *)
| StepWorkerSend : forall k mt ts o tw c fw ws out ph,
    nth_error ws k = Some (WSending mt) ->
    (List.length fw < capFrom)%nat ->
    step (mkSched ts o tw c fw ws out ph)
         (mkSched ts o tw c (app fw [mt]) (replaceAt k WIdle ws) out ph)
(** [task, ok := <-fromMaster] on the closed, drained channel: [break]. *)
| StepWorkerExit : forall k ts o c fw ws out ph,
    nth_error ws k = Some WIdle ->
    c = true ->
    step (mkSched ts o [] c fw ws out ph)
         (mkSched ts o [] c fw (replaceAt k WExited ws) out ph).

Inductive reachable (s0 : schedState) : schedState -> Prop :=
| ReachRefl : reachable s0 s0
| ReachStep : forall s s', reachable s0 s -> step s s' -> reachable s0 s'.

End Scheduler.

(* ------------------------------------------------------------------ *)
(** ** Rule generation *)

(** [Rule]; supports, confidences and lifts are written as rationals. *)
Record Rule := mkRule {
  Antecedent : list Item;
  Consequent : list Item;
  Support : Q;
  Confidence : Q;
  Lift : Q
}.

(** The value of a finite float as a rational (the thresholds handed to
    [generateRules]); NaN and infinities are not finite values and map to 0. *)
Definition Q_of_float (x : float) : Q :=
  match Prim2SF x with
  | S754_finite s m e =>
      let v := if s then Z.neg m else Z.pos m in
      if Z.leb 0 e then inject_Z (v * 2 ^ e) else Qmake v (Z.to_pos (2 ^ (- e)))
  | _ => 0%Q
  end.

(** [q < x] for a value [q] and a float threshold [x], as Go's [<] on
    [float64] compares them: false against NaN, true below +Inf, false
    below -Inf, and the order of the rationals otherwise. *)
Definition QltF (q : Q) (x : float) : bool :=
  match Prim2SF x with
  | S754_nan => false
  | S754_infinity s => negb s
  | _ => negb (Qle_bool (Q_of_float x) q)
  end.


Definition subsetb (a b : list Item) : bool :=
  forallb (fun x => existsb (Z.eqb x) b) a.

Definition sameSet (a b : list Item) : bool := subsetb a b && subsetb b a.

(** Modelled from the spec: [generateRules] is not in src/.  Section 4.5:
    itemsets are indexed by their item set, [support(S)] is the count of the
    indexed itemset equal to [S] as a set (0 when there is none); for every
    itemset [I] of two or more items, every split of [I] into a non-empty
    antecedent [A] and a non-empty consequent [C = I \ A] is skipped when
    [confidence < minConfidence], with [confidence = support(I)/support(A)],
    and skipped when [minLift > 0] and [lift < minLift], with [lift =
    confidence / (support(C)/N)]; otherwise its rule is emitted.  The
    thresholds stay [float64] values and are compared as Go compares
    [float64]s.  One chunk of rules per itemset. *)
Fixpoint supportOf (itemsets : list itemsetWithCount) (S : list Item) : Z :=
  match itemsets with
  | [] => 0
  | iwc :: rest => if sameSet (itemset iwc) S then iwcCount iwc else supportOf rest S
  end.

(** The ways of splitting a list into (antecedent, consequent), each element
    going to one side, order kept. *)
Fixpoint splits (l : list Item) : list (list Item * list Item) :=
  match l with
  | [] => [([], [])]
  | x :: l' =>
      app (map (fun '(a, c) => (x :: a, c)) (splits l'))
          (map (fun '(a, c) => (a, x :: c)) (splits l'))
  end.

Definition ruleFor (itemsets : list itemsetWithCount) (numTransactions : Z)
    (minConfidence minLift : float) (I : list Item) (ac : list Item * list Item)
    : list Rule :=
  let (A, C) := ac in
  match A, C with
  | [], _ | _, [] => []
  | _, _ =>
      let supI := inject_Z (supportOf itemsets I) in
      let confidence := (supI / inject_Z (supportOf itemsets A))%Q in
      if QltF confidence minConfidence then []
      else
        let n := inject_Z numTransactions in
        let lift := (confidence / (inject_Z (supportOf itemsets C) / n))%Q in
        if (PrimFloat.ltb 0%float minLift && QltF lift minLift)%bool then []
        else [mkRule A C (supI / n)%Q confidence lift]
  end.

Definition generateRules (itemsets : list itemsetWithCount) (numTransactions : Z)
    (minConfidence minLift : float) : list (list Rule) :=
  map (fun iwc =>
         let I := itemset iwc in
         if Nat.ltb (List.length I) 2 then []
         else flat_map (ruleFor itemsets numTransactions minConfidence minLift I)
                       (splits I))
      itemsets.

(** [countRules] *)
Definition countRules (rules : list (list Rule)) : Z :=
  fold_left (fun n chunk => n + Z.of_nat (List.length chunk)) rules 0.

(* ------------------------------------------------------------------ *)
(** ** The file system and [MineAssociationRules] (arm.go)

    The outcome of every file operation is fixed by a [World]: the lines a
    scanner yields for a file that opens ([None]: [os.Open] fails), whether
    the scan ends in an error, whether [os.Create] fails, and whether writes
    to a created file fail (a [Fprint] or the final [Flush] returns the
    error).  A run records the file operations it performs; the text written
    is not modelled.  Log output goes to stderr and is not recorded. *)
Record World := mkWorld {
  fileLines : string -> option (list string);
  scanFails : string -> bool;
  createFails : string -> bool;
  writeFails : string -> bool
}.

Inductive ioEvent := IOOpen (path : string) | IOCreate (path : string) | IOWrite (path : string).

(** [countItems(path)] (arm.go lines 120-144). *)
Definition countItems (w : World) (path : string)
    : list ioEvent * (error + (Itemizer * itemCount * Z)) :=
  match fileLines w path with
  | None => ([IOOpen path], inl (ErrOpen path))
  | Some lines =>
      if scanFails w path then ([IOOpen path], inl (ErrScan path))
      else ([IOOpen path], inr (countLines lines))
  end.

(** [generateFrequentItemsets(path, ...)] of arm.go (lines 146-183): the
    second pass and the sequential [fpGrowth]. *)
Definition generateFrequentItemsets (w : World) (path : string) (minSupport : float)
    (it : Itemizer) (frequency : itemCount) (numTransactions : Z)
    : list ioEvent * (error + list itemsetWithCount) :=
  match fileLines w path with
  | None => ([IOOpen path], inl (ErrOpen path))
  | Some lines =>
      let minCount := minCountOf minSupport numTransactions in
      let tree := buildTree it frequency minCount lines in
      if scanFails w path then ([IOOpen path], inl (ErrScan path))
      else ([IOOpen path], inr (fpGrowth (cmp it) tree [] minCount))
  end.

(** [writeItemsets] (arm.go lines 34-63) and [writeRules] (lines 65-110):
    [os.Create], then the header and one line per entry; the first failing
    write returns its error, otherwise [w.Flush()]'s result is returned. *)
Definition writeFile (w : World) (outputPath : string) : list ioEvent * option error :=
  if createFails w outputPath then ([IOCreate outputPath], Some (ErrCreate outputPath))
  else if writeFails w outputPath
  then ([IOCreate outputPath; IOWrite outputPath], Some (ErrWrite outputPath))
  else ([IOCreate outputPath; IOWrite outputPath], None).

Definition writeItemsets (w : World) (itemsets : list itemsetWithCount)
    (outputPath : string) (it : Itemizer) (numTransactions : Z)
    : list ioEvent * option error :=
  writeFile w outputPath.

Definition writeRules (w : World) (rules : list (list Rule)) (outputPath : string)
    (it : Itemizer) : list ioEvent * option error :=
  writeFile w outputPath.

(** [func MineAssociationRules(args Arguments) error] (arm.go lines
    185-229).  The results of [writeItemsets] (line 213) and [writeRules]
    (line 225) are not looked at: the function returns [nil] after them. *)
Definition MineAssociationRules (w : World) (args : Arguments)
    : list ioEvent * option error :=
  match Validate args with
  | Some e => ([], Some e)
  | None =>
      let (ev1, r1) := countItems w (Input args) in
      match r1 with
      | inl e => (ev1, Some e)
      | inr (itemizer, frequency, numTransactions) =>
          let (ev2, r2) := generateFrequentItemsets w (Input args) (MinSupport args)
                             itemizer frequency numTransactions in
          match r2 with
          | inl e => (app ev1 ev2, Some e)
          | inr itemsWithCount =>
              let ev3 :=
                if Nat.ltb 0 (String.length (ItemsetsPath args))
                then fst (writeItemsets w itemsWithCount (ItemsetsPath args)
                                        itemizer numTransactions)
                else [] in
              let rules := generateRules itemsWithCount numTransactions
                             (MinConfidence args) (MinLift args) in
              let ev4 := fst (writeRules w rules (Output args) itemizer) in
              (app ev1 (app ev2 (app ev3 ev4)), None)
          end
      end
  end.

(* ------------------------------------------------------------------ *)
(** ** Schedules and supports, for concrete runs *)

(** The channel capacity of [parallelFpGrowth] ([make(chan ..., 10000)]) and
    its number of workers. *)
Definition chanCap : nat := 10000.

Definition numWorkersCode : nat := 28.

(** One move of a run, naming the goroutine that moves. *)
Inductive choice :=
| CPanic | CRecv | CSend | CIdleRecv | CClose
| CWorkerRun (k : nat) | CWorkerSend (k : nat) | CWorkerExit (k : nat).

(** Performs a move when it is enabled. *)
Definition execStep (lt : Item -> Item -> bool) (minCount : Z) (capTo capFrom : nat)
    (c : choice) (s : schedState) : option schedState :=
  match s with
  | mkSched ts o tw cl fw ws out ph =>
      match c, ts, ph with
      | CPanic, t :: _, MRunning =>
          match mtItems t with [] => Some (mkSched ts o tw cl fw ws out MPanicked) | _ => None end
      | CRecv, t :: ts', MRunning =>
          match mtItems t, fw with
          | _ :: _, m :: fw' => Some (mkSched (pushIfItems m ts) (o - 1) tw cl fw' ws out MRunning)
          | _, _ => None
          end
      | CSend, t :: ts', MRunning =>
          match mtItems t with
          | i :: is =>
              if Nat.ltb (List.length tw) capTo then
                Some (mkSched (match is with
                               | [] => ts'
                               | _ => mkMT (mtTree t) (mtItemset t) is :: ts'
                               end)
                              (o + 1) (app tw [mkWT (mtTree t) i (mtItemset t)]) cl fw ws out
                              MRunning)
              else None
          | [] => None
          end
      | CIdleRecv, [], MRunning =>
          match fw with
          | m :: fw' => if Z.ltb 0 o
                        then Some (mkSched (pushIfItems m []) (o - 1) tw cl fw' ws out MRunning)
                        else None
          | [] => None
          end
      | CClose, [], MRunning =>
          if Z.leb o 0 then Some (mkSched [] o tw true fw ws out MDone) else None
      | CWorkerRun k, _, _ =>
          match nth_error ws k, tw with
          | Some WIdle, wt :: tw' =>
              Some (mkSched ts o tw' cl fw
                            (replaceAt k (WSending (snd (workerRun lt minCount wt))) ws)
                            (app out [fst (workerRun lt minCount wt)]) ph)
          | _, _ => None
          end
      | CWorkerSend k, _, _ =>
          match nth_error ws k with
          | Some (WSending mt) =>
              if Nat.ltb (List.length fw) capFrom
              then Some (mkSched ts o tw cl (app fw [mt]) (replaceAt k WIdle ws) out ph)
              else None
          | _ => None
          end
      | CWorkerExit k, _, _ =>
          match nth_error ws k, tw, cl with
          | Some WIdle, [], true => Some (mkSched ts o [] cl fw (replaceAt k WExited ws) out ph)
          | _, _, _ => None
          end
      | _, _, _ => None
      end
  end.

Fixpoint execSchedule (lt : Item -> Item -> bool) (minCount : Z) (capTo capFrom : nat)
    (cs : list choice) (s : schedState) : option schedState :=
  match cs with
  | [] => Some s
  | c :: cs' =>
      match execStep lt minCount capTo capFrom c s with
      | Some s' => execSchedule lt minCount capTo capFrom cs' s'
      | None => None
      end
  end.

(** [support(S)] over the input lines: the number of transactions holding
    every token of [S]. *)
Definition supportTokens (lines : list string) (S : list string) : Z :=
  Z.of_nat (List.length
    (filter (fun line => forallb (fun x => existsb (String.eqb x) (splitComma line)) S) lines)).

(** The part_001 pipeline up to the parallel miner's initial state. *)
Definition parallelStart (lines : list string) (minSupport : float)
    : Itemizer * Z * schedState :=
  let '(it, frequency, numTransactions) := countLines lines in
  let minCount := minCountOf minSupport numTransactions in
  (it, minCount,
   initSched minCount (buildTree it frequency minCount lines) numWorkersCode).

(* ------------------------------------------------------------------ *)
(** ** Auxiliary predicates and inputs used by the properties *)



Definition noFiles : World :=
  mkWorld (fun _ => None) (fun _ => false) (fun _ => false) (fun _ => false).

(** A world where the input reads fine and the output directory is
    missing, so that both [os.Create] calls fail; and one where only writes
    to the rules file fail. *)
Definition inputOnly (p : string) : option (list string) :=
  if String.eqb p "in.csv" then Some ["a,b"; "a"]%string else None.

Definition missingDir : World :=
  mkWorld inputOnly (fun _ => false)
          (fun p => (String.eqb p "nodir/itemsets.csv" || String.eqb p "nodir/rules.csv")%bool)
          (fun _ => false).

Definition diskFull : World :=
  mkWorld inputOnly (fun _ => false) (fun _ => false) (fun p => String.eqb p "rules.csv").


(** Scenario 1 of the spec: [a,b,c], [a,b], [a,c], [a] with minSupport 0.5. *)
Definition scenario1 : list string := ["a,b,c"; "a,b"; "a,c"; "a"]%string.

Definition scenario1Schedule : list choice :=
  [CSend; CWorkerRun 0; CWorkerSend 0; CIdleRecv; CClose].

(** [a] may come before [b]: [b] is not [less] than [a]. *)
Definition notAfter (less : Item -> Item -> bool) (a b : Item) : Prop := less b a = false.

(** [a] and [b] have the same sort key. *)
Definition sameKey (less : Item -> Item -> bool) (a b : Item) : bool := negb (less a b) && negb (less b a).

(** The input file with no line. *)
Definition emptyInput : list string := [].


(** A complete run of the parallel miner on scenario 1: the run of
    [scenario1Schedule], then every worker leaving its loop. *)
Definition scenario1Cmp : Item -> Item -> bool :=
  let '(it, _, _) := countLines scenario1 in cmp it.

Definition scenario1MinCount : Z :=
  let '(_, _, n) := countLines scenario1 in minCountOf 0.5 n.

Definition scenario1Tree : fpTree :=
  let '(it, frequency, n) := countLines scenario1 in
  buildTree it frequency (minCountOf 0.5 n) scenario1.

Definition scenario1Init : schedState :=
  initSched scenario1MinCount scenario1Tree numWorkersCode.

Definition scenario1FullSchedule : list choice :=
  app scenario1Schedule (map CWorkerExit (seq 0 numWorkersCode)).

Definition scenario1Final : schedState :=
  match execSchedule scenario1Cmp scenario1MinCount chanCap chanCap scenario1FullSchedule
          scenario1Init with
  | Some s => s
  | None => scenario1Init
  end.

(* ------------------------------------------------------------------ *)
(** ** Measures of a scheduler state *)

(** A worker holding a [masterTask] it has not yet sent back. *)
Definition isSending (w : workerState) : bool :=
  match w with WSending _ => true | _ => false end.

Definition isExited (w : workerState) : bool :=
  match w with WExited => true | _ => false end.

(** The jobs handed out and not yet received back by the master: queued in
    [toWorker], held by a worker, or queued in [fromWorker]. *)
Definition jobsInFlight (s : schedState) : Z :=
  Z.of_nat (List.length (toWorker s)) + Z.of_nat (List.length (filter isSending (workers s)))
  + Z.of_nat (List.length (fromWorker s)).

(** Equality of itemsets with counts is decidable (multiset counts). *)
Definition iwc_eq_dec (x y : itemsetWithCount) : {x = y} + {x <> y}.
Proof. decide equality; [apply Z.eq_dec | apply (list_eq_dec Z.eq_dec)]. Defined.

Section Pending.

Variable lt : Item -> Item -> bool.
Variable minCount : Z.

(** What the sequential recursion emits for the job [(tree, prefix, item)]:
    the itemset of [item] and everything mined from its conditional tree. *)
Definition jobOutput (t : fpTree) (prefix : list Item) (i : Item) : list itemsetWithCount :=
  let ct := makeConditionalTree t i in
  let p := appendSorted lt prefix i in
  mkIWC p (rootCount ct) :: fpGrowth lt ct p minCount.

Definition pendingTask (mt : masterTask) : list itemsetWithCount :=
  flat_map (jobOutput (mtTree mt) (mtItemset mt)) (mtItems mt).

Definition pendingWT (wt : workerTask) : list itemsetWithCount :=
  jobOutput (wtTree wt) (wtItemset wt) (wtItem wt).

Definition pendingWorker (w : workerState) : list itemsetWithCount :=
  match w with WSending mt => pendingTask mt | _ => [] end.

(** The itemsets still to be produced from a state: from the items left on
    the master's stack, the queued jobs, the results held by workers and the
    results queued for the master. *)
Definition pending (s : schedState) : list itemsetWithCount :=
  app (flat_map pendingTask (tasks s))
      (app (flat_map pendingWT (toWorker s))
           (app (flat_map pendingTask (fromWorker s)) (flat_map pendingWorker (workers s)))).

End Pending.

(* ================================================================== *)
(** * Properties *)

(* ------------------------------------------------------------------ *)
(** ** Validation *)





(** Claim C10: [Validate] looks only at the three thresholds, so empty Input
    and Output paths pass it, and a missing Input file shows up only as the
    open error of the first counting pass. *)
Theorem Validate_checks_only_thresholds (a : Arguments) (w : World) :
  Validate a = None ->
  fileLines w (Input a) = None ->
  (forall inp out itp : string,
      Validate (mkArguments inp out (MinSupport a) (MinConfidence a) (MinLift a) itp)
      = None) /\
  Validate (mkArguments "" "" (MinSupport a) (MinConfidence a) (MinLift a) "") = None /\
  MineAssociationRules w a = ([IOOpen (Input a)], Some (ErrOpen (Input a))).
Proof.
  intros Hv Hopen. split; [|split].
  - intros inp out itp. exact Hv.
  - exact Hv.
  - unfold MineAssociationRules. rewrite Hv. unfold countItems. rewrite Hopen.
    reflexivity.
Qed.


Lemma Validate_checks_only_thresholds_witness :
  let a := mkArguments "missing.csv" "" 0.5 0.5 0 "" in
  Validate a = None /\ fileLines noFiles (Input a) = None /\
  MineAssociationRules noFiles a = ([IOOpen "missing.csv"], Some (ErrOpen "missing.csv")).
Proof.
  intros a. split; [reflexivity | split; [reflexivity |]].
  apply (Validate_checks_only_thresholds a noFiles); reflexivity.
Defined.

(* ------------------------------------------------------------------ *)
(** ** Write errors *)


(** Claim C8 fails on the code: [writeItemsets] and [writeRules] return
    their I/O error, but [MineAssociationRules] drops both results (arm.go
    lines 213 and 225) and returns nil. *)
Theorem MineAssociationRules_drops_write_errors :
  snd (writeItemsets missingDir [] "nodir/itemsets.csv" newItemizer 2)
    = Some (ErrCreate "nodir/itemsets.csv") /\
  MineAssociationRules missingDir
    (mkArguments "in.csv" "nodir/rules.csv" 0.5 0.5 0 "nodir/itemsets.csv")
  = ([IOOpen "in.csv"; IOOpen "in.csv"; IOCreate "nodir/itemsets.csv";
      IOCreate "nodir/rules.csv"], None) /\
  snd (writeRules diskFull [] "rules.csv" newItemizer) = Some (ErrWrite "rules.csv") /\
  MineAssociationRules diskFull (mkArguments "in.csv" "rules.csv" 0.5 0.5 0 "")
  = ([IOOpen "in.csv"; IOOpen "in.csv"; IOCreate "rules.csv"; IOWrite "rules.csv"], None).
Proof. vm_compute. repeat split. Qed.

(* ------------------------------------------------------------------ *)
(** ** The support threshold *)

(** [ceil_int] is the ceiling of the float's value. *)
Lemma ceil_int_is_ceiling (x : float) (s : bool) (m : positive) (e : Z) :
  Prim2SF x = S754_finite s m e ->
  (Q_of_float x <= inject_Z (ceil_int x))%Q /\
  (inject_Z (ceil_int x) < Q_of_float x + 1)%Q.
Proof.
  intros Hx. unfold Q_of_float, ceil_int. rewrite Hx.
  set (v := if s then Z.neg m else Z.pos m).
  destruct (Z.leb_spec 0 e) as [He|He].
  - split; [apply Qle_refl|].
    rewrite <- (Qplus_0_r (inject_Z (v * 2 ^ e))) at 1.
    apply Qplus_lt_r. reflexivity.
  - assert (Hd : 0 < 2 ^ (- e)) by (apply Z.pow_pos_nonneg; lia).
    set (d := 2 ^ (- e)) in *.
    pose proof (Z.div_mod (- v) d ltac:(lia)) as Hdm.
    pose proof (Z.mod_pos_bound (- v) d Hd) as Hb.
    set (q := (- v) / d) in *. set (r := (- v) mod d) in *.
    unfold Qle, Qlt, Qplus, inject_Z; simpl.
    rewrite ?Pos.mul_1_r, Z2Pos.id by lia. split; nia.
Qed.

(** Claim C6: [minCount] is [max(1, ceil(minSupport * numTransactions))],
    the product being the float64 product of the code and the ceiling the
    exact ceiling of its value; it is at least 1, and the pass-2 filter keeps
    an item exactly when its frequency reaches [minCount]. *)
Theorem minCount_is_threshold (minSupport : float) (numTransactions : Z)
    (frequency : itemCount) :
  let p := PrimFloat.mul minSupport (float64_of_int numTransactions) in
  let minCount := minCountOf minSupport numTransactions in
  minCount = Z.max 1 (ceil_int p) /\
  1 <= minCount /\
  (forall sg, Prim2SF p = S754_zero sg -> ceil_int p = 0) /\
  (forall s m e, Prim2SF p = S754_finite s m e ->
     (Q_of_float p <= inject_Z (ceil_int p))%Q /\
     (inject_Z (ceil_int p) < Q_of_float p + 1)%Q) /\
  (forall i : Item, isFrequentItem frequency minCount i = true <-> minCount <= get frequency i).
Proof.
  intros p minCount. split; [reflexivity|]. split; [apply Z.le_max_l|]. split.
  { intros sg Hz. unfold ceil_int. rewrite Hz. reflexivity. }
  split.
  - intros s m e Hf. exact (ceil_int_is_ceiling p s m e Hf).
  - intros i. unfold isFrequentItem. apply Z.leb_le.
Qed.

Example minCount_examples :
  minCountOf 0.5 4 = 2 /\ minCountOf 1 10 = 10 /\ minCountOf 0 0 = 1 /\
  minCountOf 0.25 10 = 3 /\ minCountOf 0.5 0 = 1.
Proof. vm_compute. repeat split. Qed.

(* ------------------------------------------------------------------ *)
(** ** The master on a tree without frequent items *)

Lemma nth_error_repeat_inv {A : Type} (x y : A) (n k : nat) :
  nth_error (repeat x n) k = Some y -> y = x.
Proof.
  intros H. apply nth_error_In in H. apply repeat_spec in H. exact H.
Qed.

(** When the initial tree has no frequent item, the master's first task has
    no items, and the only move of the whole system is the master's panic on
    [lastTask.items[0]]: its stack still holds that task. *)
Lemma init_without_items_panics (lt : Item -> Item -> bool) (minCount : Z)
    (capTo capFrom : nat) (t : fpTree) (numWorkers : nat) :
  frequentItemsInTree t minCount = [] ->
  (forall s', step lt minCount capTo capFrom (initSched minCount t numWorkers) s' ->
     s' = mkSched [mkMT t [] []] 0 [] false [] (repeat WIdle numWorkers) [] MPanicked) /\
  step lt minCount capTo capFrom (initSched minCount t numWorkers)
       (mkSched [mkMT t [] []] 0 [] false [] (repeat WIdle numWorkers) [] MPanicked).
Proof.
  intros Hf. unfold initSched. rewrite Hf. split.
  - intros s' Hs. inversion Hs; subst; try discriminate; try reflexivity.
    match goal with H : nth_error (repeat _ _) _ = Some (WSending _) |- _ =>
      apply nth_error_repeat_inv in H; discriminate H end.
  - apply StepPanic. reflexivity.
Qed.

Lemma frequentItemsInTree_newTree (minCount : Z) : frequentItemsInTree newTree minCount = [].
Proof. reflexivity. Qed.

(** Claim C9 fails on the code: from the initial state on an empty tree
    (no frequent item), the master ends its loop by a panic while its task
    stack is non-empty; nothing else can move, and [toWorker] is never
    closed. *)
Theorem master_panics_with_task_left (lt : Item -> Item -> bool) (minCount : Z)
    (capTo capFrom numWorkers : nat) :
  (exists s', step lt minCount capTo capFrom (initSched minCount newTree numWorkers) s') /\
  (forall s', step lt minCount capTo capFrom (initSched minCount newTree numWorkers) s' ->
     phase s' = MPanicked /\ tasks s' <> [] /\ toWorkerClosed s' = false).
Proof.
  destruct (init_without_items_panics lt minCount capTo capFrom newTree numWorkers
              (frequentItemsInTree_newTree minCount)) as [Hall Hex].
  split.
  - eexists. exact Hex.
  - intros s' Hs. rewrite (Hall s' Hs). simpl. repeat split; discriminate.
Qed.


(** Claim C2 fails on the program of part_001: on the empty input there are
    0 transactions, [minCount] is 1, the initial tree is empty, and the
    parallel miner's first and only move is the master's panic, for every
    [minSupport]. *)
Theorem empty_input_panics (minSupport : float) (numWorkers : nat) :
  let '(it, frequency, numTransactions) := countLines emptyInput in
  let minCount := minCountOf minSupport numTransactions in
  let tree := buildTree it frequency minCount emptyInput in
  numTransactions = 0 /\ tree = newTree /\
  (exists s', step (cmp it) minCount chanCap chanCap (initSched minCount tree numWorkers) s') /\
  (forall s', step (cmp it) minCount chanCap chanCap (initSched minCount tree numWorkers) s' ->
     phase s' = MPanicked).
Proof.
  simpl. set (mc := minCountOf minSupport 0).
  destruct (init_without_items_panics (cmp newItemizer) mc chanCap chanCap newTree numWorkers
              (frequentItemsInTree_newTree mc)) as [Hall Hex].
  split; [reflexivity|]. split; [reflexivity|]. split.
  - eexists. exact Hex.
  - intros s' Hs. rewrite (Hall s' Hs). reflexivity.
Qed.

(** Claim C3 fails at the same input: the sequential [fpGrowth] returns the
    empty list there, while the parallel miner can only panic. *)
Theorem sequential_empty_parallel_panics (minSupport : float) (numWorkers : nat) :
  let '(it, frequency, numTransactions) := countLines emptyInput in
  let minCount := minCountOf minSupport numTransactions in
  let tree := buildTree it frequency minCount emptyInput in
  fpGrowth (cmp it) tree [] minCount = [] /\
  (exists s', step (cmp it) minCount chanCap chanCap (initSched minCount tree numWorkers) s') /\
  (forall s', step (cmp it) minCount chanCap chanCap (initSched minCount tree numWorkers) s' ->
     phase s' = MPanicked /\ collected s' = []).
Proof.
  simpl. set (mc := minCountOf minSupport 0).
  destruct (init_without_items_panics (cmp newItemizer) mc chanCap chanCap newTree numWorkers
              (frequentItemsInTree_newTree mc)) as [Hall Hex].
  split; [reflexivity|]. split.
  - eexists. exact Hex.
  - intros s' Hs. rewrite (Hall s' Hs). split; reflexivity.
Qed.

(* ------------------------------------------------------------------ *)
(** ** Concrete runs of the parallel miner *)

Lemma execStep_sound (lt : Item -> Item -> bool) (minCount : Z) (capTo capFrom : nat)
    (c : choice) (s s' : schedState) :
  execStep lt minCount capTo capFrom c s = Some s' -> step lt minCount capTo capFrom s s'.
Proof.
  destruct s as [ts o tw cl fw ws out ph].
  destruct c; simpl;
    repeat match goal with
           | |- context [match ?x with _ => _ end] => destruct x eqn:?
           end;
    intros H; try discriminate H; injection H as <-;
    repeat match goal with
           | H : Nat.ltb _ _ = true |- _ => apply Nat.ltb_lt in H
           | H : Z.ltb _ _ = true |- _ => apply Z.ltb_lt in H
           | H : Z.leb _ _ = true |- _ => apply Z.leb_le in H
           end;
    try (econstructor; eassumption).
  all: try (eapply StepRecv; eassumption).
  all: try (eapply StepSend; eassumption).
  all: try (eapply StepPanic; eassumption).
  all: try (eapply StepWorkerExit; [eassumption | reflexivity]).
  all: match goal with
       | H : mtItems ?t = ?i :: ?is |- _ =>
           refine (StepSend _ _ _ _ t i is _ _ _ _ _ _ _ H _); assumption
       end.
Qed.

Lemma execSchedule_reachable (lt : Item -> Item -> bool) (minCount : Z)
    (capTo capFrom : nat) (s0 : schedState) (cs : list choice) :
  forall s s', reachable lt minCount capTo capFrom s0 s ->
  execSchedule lt minCount capTo capFrom cs s = Some s' ->
  reachable lt minCount capTo capFrom s0 s'.
Proof.
  induction cs as [|c cs IH]; simpl; intros s s' Hr He.
  - injection He as <-. exact Hr.
  - destruct (execStep lt minCount capTo capFrom c s) as [s1|] eqn:Hs; [|discriminate].
    apply (IH s1 s'); [|exact He].
    apply ReachStep with s; [exact Hr|]. apply execStep_sound with c. exact Hs.
Qed.


(** Claim C1 fails on the code: with [minCount = 2], the itemsets [{b}],
    [{c}], [{a,b}] and [{a,c}] have support 2, yet a complete run of the
    parallel miner emits only [{a}:4], and so does the sequential miner:
    [frequentItemsInTree] keeps only items whose count exceeds [minCount]. *)
Theorem threshold_boundary_itemsets_missed :
  let '(it, frequency, numTransactions) := countLines scenario1 in
  let minCount := minCountOf 0.5 numTransactions in
  let tree := buildTree it frequency minCount scenario1 in
  let s0 := initSched minCount tree numWorkersCode in
  minCount = 2 /\
  supportTokens scenario1 ["b"]%string = 2 /\ supportTokens scenario1 ["c"]%string = 2 /\
  supportTokens scenario1 ["a"; "b"]%string = 2 /\ supportTokens scenario1 ["a"; "c"]%string = 2 /\
  frequentItemsInTree tree minCount = [0] /\
  map (fun iwc => (map (toStr it) (itemset iwc), iwcCount iwc))
      (fpGrowth (cmp it) tree [] minCount) = [(["a"%string], 4)] /\
  (exists s, reachable (cmp it) minCount chanCap chanCap s0 s /\ phase s = MDone /\
     map (fun iwc => (map (toStr it) (itemset iwc), iwcCount iwc)) (collected s)
     = [(["a"%string], 4)]).
Proof.
  assert (Hc : countLines scenario1 =
                (mkItemizer ["a"; "b"; "c"]%string, [(0, 4); (1, 2); (2, 2)], 4))
    by (vm_compute; reflexivity).
  rewrite Hc. cbv beta iota zeta.
  assert (Hm : minCountOf 0.5 4 = 2) by (vm_compute; reflexivity).
  rewrite Hm.
  repeat (split; [vm_compute; reflexivity|]).
  set (s0 := initSched 2 (buildTree (mkItemizer ["a"; "b"; "c"]%string)
                             [(0, 4); (1, 2); (2, 2)] 2 scenario1) numWorkersCode).
  destruct (execSchedule (cmp (mkItemizer ["a"; "b"; "c"]%string)) 2 chanCap chanCap
              scenario1Schedule s0) as [s|] eqn:E.
  - exists s. split.
    + apply (execSchedule_reachable _ _ _ _ s0 scenario1Schedule s0 s (ReachRefl _ _ _ _ _) E).
    + vm_compute in E. injection E as <-. split; reflexivity.
  - vm_compute in E. discriminate E.
Qed.

(* ------------------------------------------------------------------ *)
(** ** The pass-2 sort *)

Section StableSort.

Variable less : Item -> Item -> bool.
(** [less] is a strict weak order: asymmetric and negatively transitive. *)
Hypothesis less_asym : forall a b, less a b = true -> less b a = false.
Hypothesis less_negtrans : forall a b c, less a b = true -> less a c = true \/ less c b = true.

Lemma filter_all_false (f : Item -> bool) (l : list Item) :
  (forall w, In w l -> f w = false) -> filter f l = [].
Proof.
  induction l as [|x l IH]; intros H; simpl; [reflexivity|].
  rewrite (H x (or_introl eq_refl)). apply IH. intros w Hw. apply H. right. exact Hw.
Qed.


Lemma notAfter_trans : forall a b c, (notAfter less) a b -> (notAfter less) b c -> (notAfter less) a c.
Proof.
  unfold notAfter. intros a b c Hab Hbc.
  destruct (less c a) eqn:Hca; [|reflexivity].
  destruct (less_negtrans c a b Hca) as [H|H]; congruence.
Qed.

Lemma insertStable_perm (x : Item) (l : list Item) : Permutation (insertStable less x l) (x :: l).
Proof.
  induction l as [|y l IH]; simpl; [auto|].
  destruct (less x y); [auto|].
  eapply perm_trans; [apply perm_skip, IH | apply perm_swap].
Qed.

Lemma sortStable_aux_perm (l acc : list Item) :
  Permutation (fold_left (fun acc x => insertStable less x acc) l acc) (app l acc).
Proof.
  revert acc. induction l as [|x l IH]; intros acc; simpl; [auto|].
  eapply perm_trans; [apply IH|].
  eapply perm_trans; [apply Permutation_app_head, insertStable_perm|].
  apply Permutation_sym, Permutation_middle.
Qed.

Lemma insertStable_sorted (x : Item) (l : list Item) :
  Sorted (notAfter less) l -> Sorted (notAfter less) (insertStable less x l).
Proof.
  induction 1 as [|y l Hs IH Hhd]; simpl.
  - repeat constructor.
  - destruct (less x y) eqn:Hxy.
    + constructor; [constructor; assumption|]. constructor. apply less_asym. exact Hxy.
    + constructor; [exact IH|].
      destruct l as [|z l]; simpl.
      * constructor. exact Hxy.
      * destruct (less x z); constructor; [exact Hxy|]. inversion Hhd; assumption.
Qed.

Lemma sortStable_aux_sorted (l acc : list Item) :
  Sorted (notAfter less) acc ->
  Sorted (notAfter less) (fold_left (fun acc x => insertStable less x acc) l acc).
Proof.
  revert acc. induction l as [|x l IH]; intros acc Hacc; simpl; [exact Hacc|].
  apply IH, insertStable_sorted, Hacc.
Qed.

Lemma insertStable_stable (k z : Item) (acc : list Item) :
  Sorted (notAfter less) acc ->
  filter ((sameKey less) k) (insertStable less z acc)
  = app (filter ((sameKey less) k) acc) (if (sameKey less) k z then [z] else []).
Proof.
  intros Hs. apply Sorted_StronglySorted in Hs; [|exact notAfter_trans].
  induction Hs as [|y acc Hs IH Hall]; simpl.
  - destruct ((sameKey less) k z); reflexivity.
  - change (filter ((sameKey less) k) (y :: acc))
      with (if (sameKey less) k y then y :: filter ((sameKey less) k) acc else filter ((sameKey less) k) acc).
    destruct (less z y) eqn:Hzy.
    + change (filter ((sameKey less) k) (z :: y :: acc))
        with (if (sameKey less) k z then z :: filter ((sameKey less) k) (y :: acc)
              else filter ((sameKey less) k) (y :: acc)).
      destruct ((sameKey less) k z) eqn:Hkz.
      * (* [k] and [z] share a key and [z < y <= w] for every later [w]:
           nothing from [y :: acc] shares [k]'s key. *)
        assert (Hzk : less z k = false).
        { unfold sameKey in Hkz. apply andb_true_iff in Hkz as [_ H].
          apply negb_true_iff in H. exact H. }
        assert (Hky : less k y = true).
        { destruct (less_negtrans z y k Hzy) as [H|H]; congruence. }
        assert (Hnone : forall w, In w (y :: acc) -> (sameKey less) k w = false).
        { intros w [<-|Hw]; unfold sameKey.
          - rewrite Hky. reflexivity.
          - rewrite Forall_forall in Hall. specialize (Hall w Hw). unfold notAfter in Hall.
            destruct (less_negtrans k y w Hky) as [H|H]; [rewrite H; reflexivity|congruence]. }
        rewrite (filter_all_false ((sameKey less) k) (y :: acc) Hnone).
        rewrite (Hnone y (or_introl eq_refl)).
        rewrite (filter_all_false ((sameKey less) k) acc
                   (fun w Hw => Hnone w (or_intror Hw))).
        reflexivity.
      * rewrite app_nil_r. reflexivity.
    + simpl. change (filter ((sameKey less) k) (y :: insertStable less z acc))
        with (if (sameKey less) k y then y :: filter ((sameKey less) k) (insertStable less z acc)
              else filter ((sameKey less) k) (insertStable less z acc)).
      rewrite IH. destruct ((sameKey less) k y); reflexivity.
Qed.

Lemma sortStable_aux_stable (k : Item) (l acc : list Item) :
  Sorted (notAfter less) acc ->
  filter ((sameKey less) k) (fold_left (fun acc x => insertStable less x acc) l acc)
  = app (filter ((sameKey less) k) acc) (filter ((sameKey less) k) l).
Proof.
  revert acc. induction l as [|x l IH]; intros acc Hacc; simpl.
  - rewrite app_nil_r. reflexivity.
  - rewrite IH by (apply insertStable_sorted, Hacc).
    rewrite insertStable_stable by exact Hacc. rewrite <- app_assoc.
    destruct ((sameKey less) k x); reflexivity.
Qed.

(** [sortStable] permutes its input, sorts it, and keeps the input order
    among elements with the same key. *)
Lemma sortStable_spec (l : list Item) :
  Permutation (sortStable less l) l /\
  Sorted (notAfter less) (sortStable less l) /\
  (forall k, filter ((sameKey less) k) (sortStable less l) = filter ((sameKey less) k) l).
Proof.
  unfold sortStable. split; [|split].
  - rewrite <- (app_nil_r l) at 2. apply sortStable_aux_perm.
  - apply sortStable_aux_sorted. constructor.
  - intros k. rewrite sortStable_aux_stable by constructor. reflexivity.
Qed.

End StableSort.

(** The interner's [cmp] (token order) is a strict weak order. *)
Lemma ascii_compare_lt_trans (a b c : ascii) :
  Ascii.compare a b = Lt -> Ascii.compare b c = Lt -> Ascii.compare a c = Lt.
Proof.
  unfold Ascii.compare. rewrite !N.compare_lt_iff. lia.
Qed.

Lemma string_compare_lt_trans (a b c : string) :
  String.compare a b = Lt -> String.compare b c = Lt -> String.compare a c = Lt.
Proof.
  revert b c. induction a as [|ca a IH]; intros [|cb b] [|cc c]; simpl;
    try discriminate; try reflexivity.
  destruct (Ascii.compare ca cb) eqn:E1; try discriminate;
  destruct (Ascii.compare cb cc) eqn:E2; try discriminate; intros H1 H2.
  - apply Ascii.compare_eq_iff in E1. apply Ascii.compare_eq_iff in E2. subst.
    rewrite (IH b c H1 H2).
    unfold Ascii.compare. rewrite N.compare_refl. reflexivity.
  - apply Ascii.compare_eq_iff in E1. subst. rewrite E2. reflexivity.
  - apply Ascii.compare_eq_iff in E2. subst. rewrite E1. reflexivity.
  - rewrite (ascii_compare_lt_trans ca cb cc E1 E2). reflexivity.
Qed.

Lemma string_ltb_asym (a b : string) : String.ltb a b = true -> String.ltb b a = false.
Proof.
  unfold String.ltb. rewrite (String.compare_antisym b a).
  destruct (String.compare a b); simpl; congruence.
Qed.

Lemma string_ltb_negtrans (a b c : string) :
  String.ltb a b = true -> String.ltb a c = true \/ String.ltb c b = true.
Proof.
  unfold String.ltb. destruct (String.compare a b) eqn:Hab; try discriminate. intros _.
  destruct (String.compare a c) eqn:Hac.
  - apply String.compare_eq_iff in Hac. subst. right. rewrite Hab. reflexivity.
  - left. reflexivity.
  - right. assert (Hca : String.compare c a = Lt).
    { rewrite String.compare_antisym, Hac. reflexivity. }
    rewrite (string_compare_lt_trans c a b Hca Hab). reflexivity.
Qed.

Section FreqOrder.

Variable freq : Item -> Z.
Variable lt : Item -> Item -> bool.
Hypothesis lt_asym : forall a b, lt a b = true -> lt b a = false.
Hypothesis lt_negtrans : forall a b c, lt a b = true -> lt a c = true \/ lt c b = true.

Lemma lessByFreq_asym (a b : Item) :
  lessByFreq freq lt a b = true -> lessByFreq freq lt b a = false.
Proof.
  unfold lessByFreq. rewrite (Z.eqb_sym (freq b) (freq a)).
  destruct (Z.eqb_spec (freq a) (freq b)); [apply lt_asym|].
  rewrite !Z.gtb_ltb. rewrite !Z.ltb_lt, Z.ltb_ge. lia.
Qed.

Lemma lessByFreq_negtrans (a b c : Item) :
  lessByFreq freq lt a b = true ->
  lessByFreq freq lt a c = true \/ lessByFreq freq lt c b = true.
Proof.
  unfold lessByFreq. rewrite !Z.gtb_ltb.
  destruct (Z.eqb_spec (freq a) (freq b)) as [Eab|Nab];
  destruct (Z.eqb_spec (freq a) (freq c)) as [Eac|Nac];
  destruct (Z.eqb_spec (freq c) (freq b)) as [Ecb|Ncb];
  rewrite ?Z.ltb_lt; intros H; try lia.
  apply lt_negtrans. exact H.
Qed.

End FreqOrder.

Lemma cmp_asym (it : Itemizer) (a b : Item) : cmp it a b = true -> cmp it b a = false.
Proof. apply string_ltb_asym. Qed.

Lemma cmp_negtrans (it : Itemizer) (a b c : Item) :
  cmp it a b = true -> cmp it a c = true \/ cmp it c b = true.
Proof. apply string_ltb_negtrans. Qed.

Lemma Sorted_weaken (R S : Item -> Item -> Prop) (HRS : forall a b, R a b -> S a b)
    (l : list Item) : Sorted R l -> Sorted S l.
Proof.
  induction 1 as [|x l Hs IH Hhd]; constructor; [exact IH|].
  destruct Hhd; constructor. apply HRS. assumption.
Qed.

Lemma itemizerFilter_filter (it : Itemizer) (toks : list string) (pred : Item -> bool) :
  itemizerFilter it toks pred = filter pred (itemizerFilter it toks (fun _ => true)).
Proof.
  induction toks as [|t toks IH]; simpl; [reflexivity|].
  destruct (lookupItem it t) as [i|]; [|exact IH].
  simpl. destruct (pred i); rewrite IH; reflexivity.
Qed.

(** Claim C5: a scanned line becomes the line's items whose global frequency
    reaches [minCount]; if none is left the tree is unchanged; otherwise the
    items, stably sorted by decreasing frequency with ties broken by [cmp],
    are inserted with weight 1.  The sorted list is a permutation of the kept
    items, each item is followed only by items of lower frequency or of equal
    frequency and not [cmp]-smaller, and items with equal keys keep their
    order. *)
Theorem processTransaction_spec (it : Itemizer) (frequency : itemCount) (minCount : Z)
    (tree : fpTree) (line : string) :
  let transaction := itemizerFilter it (splitComma line) (isFrequentItem frequency minCount) in
  let less := lessByFreq (get frequency) (cmp it) in
  let sorted := sortStable less transaction in
  transaction = filter (fun i => Z.leb minCount (get frequency i))
                       (itemizerFilter it (splitComma line) (fun _ => true)) /\
  processTransaction it frequency minCount tree line
    = match transaction with [] => tree | _ => Insert tree sorted 1 end /\
  Permutation sorted transaction /\
  Sorted (fun a b => get frequency a > get frequency b \/
                     (get frequency a = get frequency b /\ cmp it b a = false)) sorted /\
  (forall k, filter (sameKey less k) sorted = filter (sameKey less k) transaction).
Proof.
  intros transaction less sorted.
  destruct (sortStable_spec less
              (lessByFreq_asym (get frequency) (cmp it) (cmp_asym it))
              (lessByFreq_negtrans (get frequency) (cmp it) (cmp_negtrans it))
              transaction) as [Hp [Hs Hst]].
  split; [apply itemizerFilter_filter|].
  split; [reflexivity|].
  split; [exact Hp|]. split; [|exact Hst].
  apply (Sorted_weaken (notAfter less)); [|exact Hs].
  unfold notAfter, less, lessByFreq. intros a b H.
  rewrite Z.eqb_sym in H. destruct (Z.eqb_spec (get frequency a) (get frequency b)).
  - right. split; assumption.
  - left. rewrite Z.gtb_ltb in H. apply Z.ltb_ge in H. lia.
Qed.

(* ------------------------------------------------------------------ *)
(** ** Rules *)













(* ------------------------------------------------------------------ *)
(** ** Heights of conditional trees, and the recursion's fuel *)

Lemma fpNode_forall_ind (P : fpNode -> Prop)
    (H : forall x c ch, Forall P ch -> P (FPNode x c ch)) : forall n, P n.
Proof.
  fix IH 1. intros [x c ch]. apply H.
  induction ch as [|n ch IHch]; constructor; [apply IH | exact IHch].
Qed.

Definition hts (cs : list fpNode) : nat := fold_right (fun n h => Nat.max (nodeHeight n) h) O cs.

Lemma hts_In (n : fpNode) (cs : list fpNode) : In n cs -> (nodeHeight n <= hts cs)%nat.
Proof.
  induction cs as [|m cs IH]; simpl; [intros []|]. intros [<-|Hin]; [lia|].
  specialize (IH Hin). lia.
Qed.

Lemma nodeOcc_depth (n : fpNode) :
  forall anc a x c, In (a, x, c) (nodeOcc anc n) ->
  (List.length a < List.length anc + nodeHeight n)%nat.
Proof.
  induction n as [y cy ch Hch] using fpNode_forall_ind.
  intros anc a x c Hin. simpl in Hin. destruct Hin as [E|Hin].
  - injection E as <- <- <-. simpl. lia.
  - apply in_flat_map in Hin as [n' [Hn' Hin]].
    rewrite Forall_forall in Hch. specialize (Hch n' Hn' _ _ _ _ Hin).
    rewrite length_app in Hch. simpl in Hch.
    pose proof (hts_In n' ch Hn') as Hle. unfold hts in Hle. simpl. lia.
Qed.

Lemma itemChain_depth (t : fpTree) (i : Item) (p : list Item) (c : Z) :
  In (p, c) (itemChain t i) -> (List.length p < treeHeight t)%nat.
Proof.
  unfold itemChain, allOcc. intros Hin.
  apply in_map_iff in Hin as [[[a x] c'] [E Hin]]. injection E as <- <-.
  apply filter_In in Hin as [Hin _]. apply in_flat_map in Hin as [n [Hn Hin]].
  pose proof (nodeOcc_depth n [] a x c' Hin) as Hd. simpl in Hd.
  pose proof (hts_In n _ Hn) as Hle. unfold hts in Hle. unfold treeHeight. lia.
Qed.

Lemma hts_cons (n : fpNode) (cs : list fpNode) : hts (n :: cs) = Nat.max (nodeHeight n) (hts cs).
Proof. reflexivity. Qed.

Lemma nodeHeight_FPNode (x : Item) (c : Z) (ch : list fpNode) :
  nodeHeight (FPNode x c ch) = S (hts ch).
Proof. reflexivity. Qed.

Lemma insertChildren_height (p : list Item) :
  forall (cs : list fpNode) (w : Z),
  (hts (insertChildren cs p w) <= Nat.max (hts cs) (List.length p))%nat.
Proof.
  induction p as [|x rest IHp]; intros cs w; [simpl; lia|].
  induction cs as [|[y c ch] cs IHcs].
  - specialize (IHp [] w). change (insertChildren [] (x :: rest) w)
      with [FPNode x w (insertChildren [] rest w)].
    rewrite hts_cons, nodeHeight_FPNode. simpl in *. lia.
  - change (insertChildren (FPNode y c ch :: cs) (x :: rest) w)
      with (if Z.eqb x y then FPNode y (c + w) (insertChildren ch rest w) :: cs
            else FPNode y c ch :: insertChildren cs (x :: rest) w).
    rewrite hts_cons, nodeHeight_FPNode. simpl List.length in *.
    destruct (Z.eqb x y).
    + specialize (IHp ch w). rewrite hts_cons, nodeHeight_FPNode. lia.
    + rewrite hts_cons, nodeHeight_FPNode. lia.
Qed.

Lemma Insert_height (t : fpTree) (p : list Item) (w : Z) :
  (treeHeight (Insert t p w) <= Nat.max (treeHeight t) (List.length p))%nat.
Proof. exact (insertChildren_height p (rootChildren t) w). Qed.

Lemma fold_Insert_height (chain : list (list Item * Z)) (h : nat) :
  forall t0, (treeHeight t0 <= h)%nat ->
  (forall p c, In (p, c) chain -> (List.length p <= h)%nat) ->
  (treeHeight (fold_left (fun ct '(p, c) => Insert ct p c) chain t0) <= h)%nat.
Proof.
  induction chain as [|[p c] chain IH]; intros t0 Ht Hc; simpl; [exact Ht|].
  apply IH; [|intros p' c' Hin; apply (Hc p' c'); right; exact Hin].
  pose proof (Insert_height t0 p c). specialize (Hc p c (or_introl eq_refl)). lia.
Qed.

(** The conditional tree is strictly lower, or both trees are empty. *)
Lemma makeConditionalTree_height (t : fpTree) (i : Item) :
  (treeHeight (makeConditionalTree t i) < treeHeight t)%nat \/
  (treeHeight t = O /\ makeConditionalTree t i = newTree).
Proof.
  destruct (treeHeight t) as [|h] eqn:Eh.
  - right. split; [reflexivity|]. unfold makeConditionalTree.
    destruct (itemChain t i) as [|[p c] ch] eqn:Ec; [reflexivity|].
    exfalso. pose proof (itemChain_depth t i p c) as Hd. rewrite Ec, Eh in Hd.
    specialize (Hd (or_introl eq_refl)). lia.
  - left. unfold makeConditionalTree.
    enough (treeHeight (fold_left (fun ct '(p, c) => Insert ct p c) (itemChain t i) newTree)
              <= h)%nat by lia.
    apply fold_Insert_height; [apply Nat.le_0_l|].
    intros p c Hin. pose proof (itemChain_depth t i p c Hin). lia.
Qed.

Lemma fpGrowthFuel_newTree (f : nat) (lt : Item -> Item -> bool) (minCount : Z)
    (prefix : list Item) : fpGrowthFuel f lt minCount newTree prefix = [].
Proof. destruct f; reflexivity. Qed.

(** Any fuel above the tree's height gives the same result. *)
Lemma fpGrowthFuel_enough (f : nat) :
  forall g lt minCount t prefix, (treeHeight t < f)%nat -> (treeHeight t < g)%nat ->
  fpGrowthFuel f lt minCount t prefix = fpGrowthFuel g lt minCount t prefix.
Proof.
  induction f as [|f IH]; intros g lt minCount t prefix Hf Hg; [lia|].
  destruct g as [|g]; [lia|]. simpl. apply flat_map_ext. intros i. f_equal.
  destruct (makeConditionalTree_height t i) as [Hh|[_ E]].
  - apply IH; lia.
  - rewrite E, !fpGrowthFuel_newTree. reflexivity.
Qed.

(** The recursion of [fpGrowth], fuel-free. *)
Lemma fpGrowth_unfold (lt : Item -> Item -> bool) (minCount : Z) (t : fpTree)
    (prefix : list Item) :
  fpGrowth lt t prefix minCount
  = flat_map (jobOutput lt minCount t prefix) (frequentItemsInTree t minCount).
Proof.
  unfold fpGrowth at 1. simpl. apply flat_map_ext. intros i. unfold jobOutput. f_equal.
  unfold fpGrowth.
  destruct (makeConditionalTree_height t i) as [Hh|[_ E]].
  - apply fpGrowthFuel_enough; lia.
  - rewrite E, !fpGrowthFuel_newTree. reflexivity.
Qed.

(* ------------------------------------------------------------------ *)
(** ** Invariants of the parallel miner *)

Lemma length_replaceAt {A : Type} (k : nat) (x : A) (l : list A) :
  List.length (replaceAt k x l) = List.length l.
Proof.
  revert k. induction l as [|y l IH]; intros [|k]; simpl; auto.
Qed.

Lemma filter_replaceAt {A : Type} (f : A -> bool) (k : nat) (x y : A) (l : list A) :
  nth_error l k = Some y ->
  (List.length (filter f (replaceAt k x l)) + (if f y then 1 else 0)
   = List.length (filter f l) + (if f x then 1 else 0))%nat.
Proof.
  revert k. induction l as [|z l IH]; intros [|k] H; simpl in *; try discriminate.
  - injection H as <-. destruct (f x), (f z); simpl; lia.
  - specialize (IH k H). destruct (f z); simpl; lia.
Qed.

Lemma In_replaceAt {A : Type} (k : nat) (x z : A) (l : list A) :
  In z (replaceAt k x l) -> z = x \/ In z l.
Proof.
  revert k. induction l as [|y l IH]; intros [|k]; simpl; try tauto.
  - intros [E|H]; [left; symmetry; exact E | right; right; exact H].
  - intros [E|H]; [right; left; exact E | destruct (IH k H); tauto].
Qed.

Lemma flat_map_replaceAt {A B : Type} (g : A -> list B) (k : nat) (x y : A) (l : list A) :
  nth_error l k = Some y ->
  Permutation (app (flat_map g (replaceAt k x l)) (g y)) (app (flat_map g l) (g x)).
Proof.
  revert k. induction l as [|z l IH]; intros [|k] H; simpl in *; try discriminate.
  - injection H as <-. rewrite <- !app_assoc.
    etransitivity; [apply Permutation_app_head, Permutation_app_comm|].
    rewrite app_assoc. etransitivity; [apply Permutation_app_tail, Permutation_app_comm|].
    rewrite <- app_assoc. apply Permutation_app_head, Permutation_app_comm.
  - rewrite <- !app_assoc. apply Permutation_app_head. exact (IH k H).
Qed.

Lemma nth_error_In_ws (ws : list workerState) (k : nat) (w : workerState) :
  nth_error ws k = Some w -> In w ws.
Proof. apply nth_error_In. Qed.

Lemma filter_repeat_WIdle (f : workerState -> bool) (n : nat) :
  f WIdle = false -> filter f (repeat WIdle n) = [].
Proof. intros H. induction n as [|n IH]; simpl; [reflexivity|]. rewrite H. exact IH. Qed.

Section Invariants.

Variable lt : Item -> Item -> bool.
Variable minCount : Z.
Variables capTo capFrom : nat.
Variable initialTree : fpTree.
Variable numWorkers : nat.


(** The master's [outstandingJobs] counts the jobs in flight. *)
Lemma outstanding_inv (s : schedState) : reachable lt minCount capTo capFrom (initSched minCount initialTree numWorkers) s -> outstandingJobs s = jobsInFlight s.
Proof.
  induction 1 as [|s s' _ IH Hs].
  { unfold jobsInFlight. simpl. rewrite filter_repeat_WIdle by reflexivity. reflexivity. }
  unfold jobsInFlight in *.
  inversion Hs; subst; cbn [outstandingJobs toWorker fromWorker workers tasks] in *;
    rewrite ?length_app in *; cbn [List.length] in *.
  - exact IH.
  - lia.
  - lia.
  - lia.
  - exact IH.
  - pose proof (filter_replaceAt isSending k (WSending (snd (workerRun lt minCount wt))) WIdle ws H)
      as Hf. cbn [isSending] in Hf. lia.
  - pose proof (filter_replaceAt isSending k WIdle (WSending mt) ws H) as Hf. cbn [isSending] in Hf. lia.
  - pose proof (filter_replaceAt isSending k WExited WIdle ws H) as Hf. cbn [isSending] in Hf. lia.
Qed.

(** Shape facts: the pool keeps its size, [toWorker] is closed only by the
    master's return, the master returns with an empty stack and no job
    outstanding, and a worker leaves its loop only once [toWorker] is closed. *)
Lemma shape_inv (s : schedState) : reachable lt minCount capTo capFrom (initSched minCount initialTree numWorkers) s ->
  List.length (workers s) = numWorkers /\
  (toWorkerClosed s = true -> phase s = MDone) /\
  (phase s = MDone -> tasks s = [] /\ outstandingJobs s <= 0 /\ toWorkerClosed s = true) /\
  (In WExited (workers s) -> toWorkerClosed s = true).
Proof.
  induction 1 as [|s s' _ IH Hs].
  - simpl. rewrite repeat_length. repeat split; try discriminate.
    intros Hin. apply repeat_spec in Hin. discriminate.
  - destruct IH as (Hlen & Hcl & Hdone & Hex).
    inversion Hs; subst; cbn [workers toWorkerClosed phase tasks outstandingJobs] in *;
      rewrite ?length_replaceAt.
    (* the master's moves other than its return *)
    1-4: split; [solve [exact Hlen | reflexivity]|]; split; [intros E; apply Hcl in E; discriminate|];
         split; [intros E; discriminate E | exact Hex].
    (* [close(toWorker)] and return *)
    + repeat split; try solve [exact Hlen | reflexivity]; lia.
    (* the workers' moves *)
    + split; [solve [exact Hlen | reflexivity]|]; split; [exact Hcl|]; split; [exact Hdone|].
      intros Hin. apply In_replaceAt in Hin as [E|Hin]; [discriminate E | exact (Hex Hin)].
    + split; [solve [exact Hlen | reflexivity]|]; split; [exact Hcl|]; split; [exact Hdone|].
      intros Hin. apply In_replaceAt in Hin as [E|Hin]; [discriminate E | exact (Hex Hin)].
    + split; [solve [exact Hlen | reflexivity]|]; split; [exact Hcl|]; split; [exact Hdone|].
      intros _. reflexivity.
Qed.

End Invariants.

Lemma flat_map_repeat_WIdle {B : Type} (g : workerState -> list B) (n : nat) :
  g WIdle = [] -> flat_map g (repeat WIdle n) = [].
Proof. intros H. induction n as [|n IH]; simpl; [reflexivity|]. rewrite H, IH. reflexivity. Qed.

Lemma count_replaceAt {A : Type} (g : A -> list itemsetWithCount) (k : nat) (x y : A)
    (l : list A) (z : itemsetWithCount) :
  nth_error l k = Some y ->
  (count_occ iwc_eq_dec (flat_map g (replaceAt k x l)) z + count_occ iwc_eq_dec (g y) z
   = count_occ iwc_eq_dec (flat_map g l) z + count_occ iwc_eq_dec (g x) z)%nat.
Proof.
  intros H. pose proof (flat_map_replaceAt g k x y l H) as Hp.
  rewrite (Permutation_count_occ iwc_eq_dec) in Hp. specialize (Hp z).
  rewrite !count_occ_app in Hp. exact Hp.
Qed.

Lemma pushIfItems_pending (lt : Item -> Item -> bool) (minCount : Z) (m : masterTask)
    (ts : list masterTask) :
  flat_map (pendingTask lt minCount) (pushIfItems m ts)
  = app (pendingTask lt minCount m) (flat_map (pendingTask lt minCount) ts).
Proof.
  unfold pushIfItems. destruct (mtItems m) eqn:E; [|reflexivity].
  unfold pendingTask at 2. rewrite E. reflexivity.
Qed.

Lemma pendingTask_nil (lt : Item -> Item -> bool) (minCount : Z) (t : fpTree)
    (p : list Item) : pendingTask lt minCount (mkMT t p []) = [].
Proof. reflexivity. Qed.

Section Refinement.

Variable lt : Item -> Item -> bool.
Variable minCount : Z.
Variables capTo capFrom : nat.
Variable initialTree : fpTree.
Variable numWorkers : nat.

(** What has been collected and what is still to be produced make up, as
    a multiset, the output of the sequential recursion on the initial tree. *)
Lemma collected_pending_inv (s : schedState) :
  reachable lt minCount capTo capFrom (initSched minCount initialTree numWorkers) s ->
  forall z,
  (count_occ iwc_eq_dec (collected s) z + count_occ iwc_eq_dec (pending lt minCount s) z
   = count_occ iwc_eq_dec (fpGrowth lt initialTree [] minCount) z)%nat.
Proof.
  induction 1 as [|s s' _ IH Hs]; intros z.
  - unfold pending. simpl. rewrite flat_map_repeat_WIdle by reflexivity.
    rewrite fpGrowth_unfold. unfold pendingTask. simpl. rewrite !app_nil_r. reflexivity.
  - rewrite <- (IH z). clear IH. unfold pending.
    inversion Hs; subst; cbn [collected tasks toWorker fromWorker workers flat_map] in *;
      rewrite ?pushIfItems_pending, ?flat_map_app, ?count_occ_app.
    + reflexivity.
    + cbn [flat_map]. rewrite ?count_occ_app. lia.
    + assert (Ht : pendingTask lt minCount t
                   = app (jobOutput lt minCount (mtTree t) (mtItemset t) i)
                         (pendingTask lt minCount (mkMT (mtTree t) (mtItemset t) is)))
        by (unfold pendingTask; rewrite H; reflexivity).
      rewrite Ht, !count_occ_app.
      destruct is as [|i' is'].
      * rewrite (pendingTask_nil lt minCount). cbn [flat_map]. unfold pendingWT.
        cbn [wtTree wtItemset wtItem]. rewrite ?count_occ_app. cbn [count_occ] in *. lia.
      * cbn [flat_map]. unfold pendingWT.
        cbn [wtTree wtItemset wtItem]. rewrite ?count_occ_app. cbn [count_occ] in *. lia.
    + cbn [flat_map]. rewrite ?count_occ_app. cbn [count_occ] in *. lia.
    + reflexivity.
    + pose proof (count_replaceAt (pendingWorker lt minCount) k
                    (WSending (snd (workerRun lt minCount wt))) WIdle ws z H) as Hr.
      cbn [pendingWorker] in Hr.
      assert (Hw : pendingWT lt minCount wt
                   = fst (workerRun lt minCount wt) :: pendingTask lt minCount (snd (workerRun lt minCount wt))).
      { unfold pendingWT, jobOutput, workerRun, pendingTask. simpl.
        rewrite fpGrowth_unfold. reflexivity. }
      cbn [flat_map]. rewrite Hw, ?count_occ_app. cbn [count_occ app] in *.
      destruct (iwc_eq_dec (fst (workerRun lt minCount wt)) z); cbn [count_occ] in Hr |- *; lia.
    + pose proof (count_replaceAt (pendingWorker lt minCount) k WIdle (WSending mt) ws z H) as Hr.
      cbn [pendingWorker] in Hr. cbn [flat_map]. rewrite ?count_occ_app. cbn [count_occ] in Hr |- *. lia.
    + pose proof (count_replaceAt (pendingWorker lt minCount) k WExited WIdle ws z H) as Hr.
      cbn [pendingWorker count_occ] in Hr. lia.
Qed.

End Refinement.

(** With frequent items in the initial tree, every task on the master's
    stack has items left, and the master never panics. *)
Lemma nopanic_inv (lt : Item -> Item -> bool) (minCount : Z) (capTo capFrom : nat)
    (initialTree : fpTree) (numWorkers : nat) (s : schedState) :
  frequentItemsInTree initialTree minCount <> [] ->
  reachable lt minCount capTo capFrom (initSched minCount initialTree numWorkers) s ->
  Forall (fun mt => mtItems mt <> []) (tasks s) /\ phase s <> MPanicked.
Proof.
  intros Hf. induction 1 as [|s s' _ IH Hs].
  - simpl. split; [constructor; [exact Hf | constructor] | discriminate].
  - destruct IH as [Hall Hph].
    inversion Hs; subst; cbn [tasks phase] in *; try (split; assumption).
    + inversion Hall; subst. contradiction.
    + split; [|discriminate]. unfold pushIfItems. destruct (mtItems m) eqn:E; [exact Hall|].
      constructor; [rewrite E; discriminate | exact Hall].
    + split; [|discriminate]. inversion Hall; subst.
      destruct is as [|i' is']; [assumption|]. constructor; [simpl; discriminate | assumption].
    + split; [|discriminate]. unfold pushIfItems. destruct (mtItems m) eqn:E; [constructor|].
      constructor; [rewrite E; discriminate | constructor].
    + split; [constructor | discriminate].
Qed.

Lemma find_idle (ws : list workerState) :
  (exists k, nth_error ws k = Some WIdle) \/ (forall w, In w ws -> w <> WIdle).
Proof.
  induction ws as [|w ws IH].
  - right. intros w [].
  - destruct w as [| mt |].
    + left. exists O. reflexivity.
    + destruct IH as [[k Hk]|Hno]; [left; exists (S k); exact Hk|].
      right. intros w [<-|Hw]; [discriminate | exact (Hno w Hw)].
    + destruct IH as [[k Hk]|Hno]; [left; exists (S k); exact Hk|].
      right. intros w [<-|Hw]; [discriminate | exact (Hno w Hw)].
Qed.

Lemma find_sending (ws : list workerState) :
  (exists k mt, nth_error ws k = Some (WSending mt)) \/
  (forall w, In w ws -> isSending w = false).
Proof.
  induction ws as [|w ws IH].
  - right. intros w [].
  - destruct w as [| mt |].
    + destruct IH as [[k [mt Hk]]|Hno]; [left; exists (S k), mt; exact Hk|].
      right. intros w [<-|Hw]; [reflexivity | exact (Hno w Hw)].
    + left. exists O, mt. reflexivity.
    + destruct IH as [[k [mt Hk]]|Hno]; [left; exists (S k), mt; exact Hk|].
      right. intros w [<-|Hw]; [reflexivity | exact (Hno w Hw)].
Qed.

Lemma no_sending_filter (ws : list workerState) :
  List.length (filter isSending ws) = O -> forall w, In w ws -> isSending w = false.
Proof.
  intros H w Hw. destruct (isSending w) eqn:E; [|reflexivity].
  assert (Hin : In w (filter isSending ws)) by (apply filter_In; split; assumption).
  destruct (filter isSending ws); [destruct Hin | discriminate H].
Qed.

Lemma scenario1Final_reachable :
  reachable scenario1Cmp scenario1MinCount chanCap chanCap scenario1Init scenario1Final.
Proof.
  apply (execSchedule_reachable _ _ _ _ scenario1Init scenario1FullSchedule scenario1Init);
    [apply ReachRefl | vm_compute; reflexivity].
Qed.

Lemma scenario1Init_reachable :
  reachable scenario1Cmp scenario1MinCount chanCap chanCap scenario1Init scenario1Init.
Proof. apply ReachRefl. Qed.

(** The master's [outstandingJobs] always equals the number of jobs in
    flight: tasks queued in [toWorker], results held by workers not yet sent
    back, and results queued in [fromWorker]; in particular it is never
    negative. *)
Theorem parallel_outstanding_counts_jobs (lt : Item -> Item -> bool) (minCount : Z)
    (capTo capFrom : nat) (initialTree : fpTree) (numWorkers : nat) (s : schedState) :
  reachable lt minCount capTo capFrom (initSched minCount initialTree numWorkers) s ->
  outstandingJobs s
  = Z.of_nat (List.length (toWorker s)) + Z.of_nat (List.length (filter isSending (workers s)))
    + Z.of_nat (List.length (fromWorker s)) /\
  0 <= outstandingJobs s.
Proof.
  intros Hr. pose proof (outstanding_inv lt minCount capTo capFrom initialTree numWorkers s Hr) as H.
  unfold jobsInFlight in H. split; [exact H | lia].
Qed.

Lemma parallel_outstanding_counts_jobs_witness :
  reachable scenario1Cmp scenario1MinCount chanCap chanCap scenario1Init scenario1Final /\
  outstandingJobs scenario1Final
  = Z.of_nat (List.length (toWorker scenario1Final))
    + Z.of_nat (List.length (filter isSending (workers scenario1Final)))
    + Z.of_nat (List.length (fromWorker scenario1Final)) /\
  0 <= outstandingJobs scenario1Final.
Proof.
  split; [exact scenario1Final_reachable|].
  exact (parallel_outstanding_counts_jobs scenario1Cmp scenario1MinCount chanCap chanCap
           scenario1Tree numWorkersCode scenario1Final scenario1Final_reachable).
Defined.

(** When the master has returned, its stack is empty, no job is
    outstanding, both channel buffers are empty, no worker holds an unsent
    result, and [toWorker] is closed. *)
Theorem parallel_done_drained (lt : Item -> Item -> bool) (minCount : Z)
    (capTo capFrom : nat) (initialTree : fpTree) (numWorkers : nat) (s : schedState) :
  reachable lt minCount capTo capFrom (initSched minCount initialTree numWorkers) s ->
  phase s = MDone ->
  tasks s = [] /\ outstandingJobs s = 0 /\ toWorker s = [] /\ fromWorker s = [] /\
  (forall w, In w (workers s) -> isSending w = false) /\ toWorkerClosed s = true.
Proof.
  intros Hr Hd.
  pose proof (outstanding_inv lt minCount capTo capFrom initialTree numWorkers s Hr) as Ho.
  destruct (shape_inv lt minCount capTo capFrom initialTree numWorkers s Hr)
    as (_ & _ & Hdone & _).
  destruct (Hdone Hd) as (Ht & Hle & Hc). unfold jobsInFlight in Ho.
  split; [exact Ht|]. split; [lia|].
  split; [destruct (toWorker s) eqn:E; [reflexivity | cbn [List.length] in Ho; lia]|].
  split; [destruct (fromWorker s) eqn:E; [reflexivity | cbn [List.length] in Ho; lia]|].
  split; [apply no_sending_filter; lia | exact Hc].
Qed.

Lemma parallel_done_drained_witness :
  phase scenario1Final = MDone /\
  tasks scenario1Final = [] /\ outstandingJobs scenario1Final = 0 /\
  toWorker scenario1Final = [] /\ fromWorker scenario1Final = [] /\
  (forall w, In w (workers scenario1Final) -> isSending w = false) /\
  toWorkerClosed scenario1Final = true.
Proof.
  assert (Hd : phase scenario1Final = MDone) by (vm_compute; reflexivity).
  split; [exact Hd|].
  exact (parallel_done_drained scenario1Cmp scenario1MinCount chanCap chanCap
           scenario1Tree numWorkersCode scenario1Final scenario1Final_reachable Hd).
Defined.

(** A worker leaves its loop only after the master has returned and
    closed [toWorker]; the pool keeps its size. *)
Theorem parallel_workers_exit_after_close (lt : Item -> Item -> bool) (minCount : Z)
    (capTo capFrom : nat) (initialTree : fpTree) (numWorkers : nat) (s : schedState) :
  reachable lt minCount capTo capFrom (initSched minCount initialTree numWorkers) s ->
  List.length (workers s) = numWorkers /\
  (In WExited (workers s) -> toWorkerClosed s = true /\ phase s = MDone).
Proof.
  intros Hr.
  destruct (shape_inv lt minCount capTo capFrom initialTree numWorkers s Hr)
    as (Hlen & Hcl & _ & Hex).
  split; [exact Hlen|]. intros Hin. split; [exact (Hex Hin) | exact (Hcl (Hex Hin))].
Qed.

Lemma parallel_workers_exit_after_close_witness :
  List.length (workers scenario1Final) = numWorkersCode /\
  (In WExited (workers scenario1Final) ->
     toWorkerClosed scenario1Final = true /\ phase scenario1Final = MDone).
Proof.
  exact (parallel_workers_exit_after_close scenario1Cmp scenario1MinCount chanCap chanCap
           scenario1Tree numWorkersCode scenario1Final scenario1Final_reachable).
Defined.

(** If the initial tree has at least one item above [minCount], the master
    never panics: every task on its stack keeps at least one item. *)
Theorem parallel_no_panic (lt : Item -> Item -> bool) (minCount : Z)
    (capTo capFrom : nat) (initialTree : fpTree) (numWorkers : nat) (s : schedState) :
  frequentItemsInTree initialTree minCount <> [] ->
  reachable lt minCount capTo capFrom (initSched minCount initialTree numWorkers) s ->
  phase s <> MPanicked /\ Forall (fun mt => mtItems mt <> []) (tasks s).
Proof.
  intros Hf Hr. destruct (nopanic_inv lt minCount capTo capFrom initialTree numWorkers s Hf Hr).
  split; assumption.
Qed.

Lemma parallel_no_panic_witness :
  frequentItemsInTree scenario1Tree scenario1MinCount <> [] /\
  phase scenario1Final <> MPanicked /\ Forall (fun mt => mtItems mt <> []) (tasks scenario1Final).
Proof.
  assert (Hf : frequentItemsInTree scenario1Tree scenario1MinCount <> [])
    by (vm_compute; discriminate).
  split; [exact Hf|].
  exact (parallel_no_panic scenario1Cmp scenario1MinCount chanCap chanCap
           scenario1Tree numWorkersCode scenario1Final Hf scenario1Final_reachable).
Defined.

(** No deadlock: with channel capacities and a pool of at least one, and an
    initial tree with an item above [minCount], every reachable state can
    move, unless it is the final one: the master has returned, both channel
    buffers are empty and every worker has left its loop. *)
Theorem parallel_deadlock_free (lt : Item -> Item -> bool) (minCount : Z)
    (capTo capFrom : nat) (initialTree : fpTree) (numWorkers : nat) (s : schedState) :
  (1 <= capTo)%nat -> (1 <= capFrom)%nat -> (1 <= numWorkers)%nat ->
  frequentItemsInTree initialTree minCount <> [] ->
  reachable lt minCount capTo capFrom (initSched minCount initialTree numWorkers) s ->
  (exists s', step lt minCount capTo capFrom s s') \/
  (phase s = MDone /\ toWorker s = [] /\ fromWorker s = [] /\
   forall w, In w (workers s) -> w = WExited).
Proof.
  intros Hto Hfrom Hn Hf Hr.
  pose proof (outstanding_inv lt minCount capTo capFrom initialTree numWorkers s Hr) as Ho.
  destruct (shape_inv lt minCount capTo capFrom initialTree numWorkers s Hr)
    as (Hlen & Hcl & Hdone & Hex).
  destruct (nopanic_inv lt minCount capTo capFrom initialTree numWorkers s Hf Hr) as [Hall Hph].
  unfold jobsInFlight in Ho.
  destruct s as [ts o tw c fw ws out ph]; cbn [tasks outstandingJobs toWorker toWorkerClosed
    fromWorker workers collected phase] in *.
  assert (Hws : ws <> []) by (intros E; subst ws; simpl in Hlen; lia).
  destruct ph; [| | contradiction].
  - (* the master runs: [toWorker] is open and no worker has left *)
    assert (Hc : c = false) by (destruct c; [discriminate (Hcl eq_refl) | reflexivity]).
    assert (Hnx : ~ In WExited ws) by (intros Hin; rewrite (Hex Hin) in Hc; discriminate).
    left. destruct ts as [|t ts].
    + destruct (Z_le_gt_dec o 0) as [Ho0|Ho0]; [eexists; apply StepClose; exact Ho0|].
      destruct fw as [|m fw]; [|eexists; apply StepIdleRecv; lia].
      destruct (find_sending ws) as [[k [mt Hk]]|Hns].
      * eexists. apply (StepWorkerSend _ _ _ _ k mt). exact Hk. simpl. lia.
      * assert (Hz : List.length (filter isSending ws) = O).
        { destruct (filter isSending ws) as [|w ws'] eqn:E; [reflexivity|].
          assert (Hin : In w (filter isSending ws)) by (rewrite E; left; reflexivity).
          apply filter_In in Hin as [Hin Hs]. rewrite (Hns w Hin) in Hs. discriminate. }
        destruct tw as [|wt tw]; [simpl in Ho; lia|].
        destruct ws as [|w ws']; [contradiction|].
        destruct w as [| mt |].
        -- eexists. apply (StepWorkerRun _ _ _ _ O). reflexivity.
        -- specialize (Hns _ (or_introl eq_refl)). discriminate.
        -- exfalso. apply Hnx. left. reflexivity.
    + inversion Hall as [|? ? Hti Hall']; subst.
      destruct (mtItems t) as [|i is] eqn:Ei; [contradiction|].
      destruct (Nat.lt_ge_cases (List.length tw) capTo) as [Hlt|Hge].
      * eexists. apply StepSend with (i := i) (is := is); assumption.
      * destruct tw as [|wt tw]; [simpl in Hge; lia|].
        destruct (find_idle ws) as [[k Hk]|Hni].
        -- eexists. apply (StepWorkerRun _ _ _ _ k). exact Hk.
        -- destruct ws as [|w ws']; [contradiction|].
           destruct w as [| mt |]; [exfalso; exact (Hni _ (or_introl eq_refl) eq_refl)| |
                                     exfalso; apply Hnx; left; reflexivity].
           destruct (Nat.lt_ge_cases (List.length fw) capFrom) as [Hflt|Hfge].
           ++ eexists. apply (StepWorkerSend _ _ _ _ O mt). reflexivity. exact Hflt.
           ++ destruct fw as [|m fw]; [simpl in Hfge; lia|].
              eexists. apply StepRecv with (i := i) (is := is). exact Ei.
  - (* the master has returned *)
    destruct (Hdone eq_refl) as (-> & Hle & ->).
    destruct tw as [|wt tw]; [|cbn [List.length] in Ho; lia].
    destruct fw as [|m fw]; [|cbn [List.length] in Ho; lia].
    assert (Hns : forall w, In w ws -> isSending w = false)
      by (apply no_sending_filter; cbn [List.length] in Ho; lia).
    destruct (find_idle ws) as [[k Hk]|Hni].
    + left. eexists. apply (StepWorkerExit _ _ _ _ k); [exact Hk | reflexivity].
    + right. split; [reflexivity|]. split; [reflexivity|]. split; [reflexivity|].
      intros w Hw. specialize (Hns w Hw). specialize (Hni w Hw).
      destruct w; [contradiction | discriminate | reflexivity].
Qed.

Lemma parallel_deadlock_free_witness :
  frequentItemsInTree scenario1Tree scenario1MinCount <> [] /\
  ((exists s', step scenario1Cmp scenario1MinCount chanCap chanCap scenario1Init s') \/
   (phase scenario1Init = MDone /\ toWorker scenario1Init = [] /\ fromWorker scenario1Init = [] /\
    forall w, In w (workers scenario1Init) -> w = WExited)).
Proof.
  assert (Hf : frequentItemsInTree scenario1Tree scenario1MinCount <> [])
    by (vm_compute; discriminate).
  split; [exact Hf|].
  apply (parallel_deadlock_free scenario1Cmp scenario1MinCount chanCap chanCap
           scenario1Tree numWorkersCode scenario1Init); try (vm_compute; lia).
  - exact Hf.
  - exact scenario1Init_reachable.
Defined.

(** Whenever the master returns normally, the itemsets the collector has
    received are, as a multiset, exactly the output of the sequential
    FP-Growth recursion on the same tree and [minCount]. *)
Theorem parallel_refines_fpGrowth (lt : Item -> Item -> bool) (minCount : Z)
    (capTo capFrom : nat) (initialTree : fpTree) (numWorkers : nat) (s : schedState) :
  reachable lt minCount capTo capFrom (initSched minCount initialTree numWorkers) s ->
  phase s = MDone ->
  Permutation (collected s) (fpGrowth lt initialTree [] minCount).
Proof.
  intros Hr Hd.
  pose proof (outstanding_inv lt minCount capTo capFrom initialTree numWorkers s Hr) as Ho.
  destruct (shape_inv lt minCount capTo capFrom initialTree numWorkers s Hr)
    as (_ & _ & Hdone & _).
  destruct (Hdone Hd) as (Ht & Hle & _). unfold jobsInFlight in Ho.
  assert (Htw : toWorker s = [])
    by (destruct (toWorker s); [reflexivity | cbn [List.length] in Ho; lia]).
  assert (Hfw : fromWorker s = [])
    by (destruct (fromWorker s); [reflexivity | cbn [List.length] in Ho; lia]).
  assert (Hns : forall w, In w (workers s) -> isSending w = false)
    by (apply no_sending_filter; lia).
  assert (Hp : pending lt minCount s = []).
  { unfold pending. rewrite Ht, Htw, Hfw. simpl.
    revert Hns. generalize (workers s). intros ws Hns.
    induction ws as [|w ws IH]; [reflexivity|].
    simpl. destruct w as [| mt |].
    - apply IH. intros w' Hw'. apply Hns. right. exact Hw'.
    - specialize (Hns _ (or_introl eq_refl)). discriminate.
    - apply IH. intros w' Hw'. apply Hns. right. exact Hw'. }
  apply (Permutation_count_occ iwc_eq_dec). intros z.
  pose proof (collected_pending_inv lt minCount capTo capFrom initialTree numWorkers s Hr z) as Hc.
  rewrite Hp in Hc. simpl in Hc. lia.
Qed.

Lemma parallel_refines_fpGrowth_witness :
  phase scenario1Final = MDone /\
  Permutation (collected scenario1Final) (fpGrowth scenario1Cmp scenario1Tree [] scenario1MinCount).
Proof.
  assert (Hd : phase scenario1Final = MDone) by (vm_compute; reflexivity).
  split; [exact Hd|].
  exact (parallel_refines_fpGrowth scenario1Cmp scenario1MinCount chanCap chanCap
           scenario1Tree numWorkersCode scenario1Final scenario1Final_reachable Hd).
Defined.

(* ------------------------------------------------------------------ *)
(** ** Counting, validation edges and the I/O of [MineAssociationRules] *)

Lemma countLines_transactions (lines : list string) :
  forall it freq n,
  (let '(_, _, n') := fold_left
      (fun '(it, freq, n) line =>
         let (it', freq') := forEachItem it (splitComma line) (fun c i => increment c i 1) freq in
         (it', freq', n + 1)) lines (it, freq, n) in n') = n + Z.of_nat (List.length lines).
Proof.
  induction lines as [|line lines IH]; intros it freq n; simpl; [lia|].
  destruct (forEachItem it (splitComma line) (fun c i => increment c i 1) freq) as [it' freq'].
  rewrite IH. lia.
Qed.

(** [countItems] on a file that opens: a read error ends it with that
    error; otherwise [numTransactions] is the number of lines, empty lines
    included. *)
Theorem countItems_transactions (w : World) (path : string) (lines : list string) :
  fileLines w path = Some lines ->
  (scanFails w path = true -> countItems w path = ([IOOpen path], inl (ErrScan path))) /\
  (scanFails w path = false ->
   exists it frequency,
     countItems w path = ([IOOpen path], inr (it, frequency, Z.of_nat (List.length lines)))).
Proof.
  intros Hl. unfold countItems. rewrite Hl. split; intros Hs; rewrite Hs; [reflexivity|].
  unfold countLines.
  pose proof (countLines_transactions lines newItemizer makeCounts 0) as Hn.
  destruct (fold_left _ lines (newItemizer, makeCounts, 0)) as [[it freq] n].
  exists it, freq. rewrite Hn. reflexivity.
Qed.

Lemma countItems_transactions_witness :
  fileLines diskFull "in.csv" = Some ["a,b"; "a"]%string /\
  (scanFails diskFull "in.csv" = true ->
   countItems diskFull "in.csv" = ([IOOpen "in.csv"], inl (ErrScan "in.csv"))) /\
  (scanFails diskFull "in.csv" = false ->
   exists it frequency,
     countItems diskFull "in.csv"
     = ([IOOpen "in.csv"], inr (it, frequency, Z.of_nat (List.length ["a,b"; "a"]%string)))).
Proof.
  assert (Hl : fileLines diskFull "in.csv" = Some ["a,b"; "a"]%string) by reflexivity.
  split; [exact Hl|]. exact (countItems_transactions diskFull "in.csv" _ Hl).
Defined.






(** When the arguments are valid and the input reads fine, the input is
    opened twice (one pass each), the itemsets file is created only when
    [ItemsetsPath] is not empty, the rules file is always created, and the
    result is [nil]. *)
Theorem MineAssociationRules_success_io (w : World) (a : Arguments) (lines : list string) :
  Validate a = None -> fileLines w (Input a) = Some lines -> scanFails w (Input a) = false ->
  MineAssociationRules w a =
    (app [IOOpen (Input a); IOOpen (Input a)]
         (app (if Nat.ltb 0 (String.length (ItemsetsPath a))
               then fst (writeFile w (ItemsetsPath a)) else [])
              (fst (writeFile w (Output a)))), None).
Proof.
  intros Hv Hl Hs. unfold MineAssociationRules. rewrite Hv.
  unfold countItems. rewrite Hl, Hs.
  destruct (countLines lines) as [[it freq] n].
  unfold generateFrequentItemsets. rewrite Hl, Hs. reflexivity.
Qed.

Lemma MineAssociationRules_success_io_witness :
  let a := {| Input := "in.csv"; Output := "rules.csv"; MinSupport := 0.5;
              MinConfidence := 0.5; MinLift := 1; ItemsetsPath := "" |} in
  Validate a = None /\ fileLines diskFull (Input a) = Some ["a,b"; "a"]%string /\
  scanFails diskFull (Input a) = false /\
  MineAssociationRules diskFull a =
    (app [IOOpen (Input a); IOOpen (Input a)]
         (app (if Nat.ltb 0 (String.length (ItemsetsPath a))
               then fst (writeFile diskFull (ItemsetsPath a)) else [])
              (fst (writeFile diskFull (Output a)))), None).
Proof.
  intros a.
  assert (Hv : Validate a = None) by (vm_compute; reflexivity).
  assert (Hl : fileLines diskFull (Input a) = Some ["a,b"; "a"]%string) by reflexivity.
  assert (Hs : scanFails diskFull (Input a) = false) by reflexivity.
  split; [exact Hv|]. split; [exact Hl|]. split; [exact Hs|].
  exact (MineAssociationRules_success_io diskFull a _ Hv Hl Hs).
Defined.

(** When the arguments are valid but the input cannot be opened, or it
    opens and its first scan fails, [MineAssociationRules] returns that error after the one
    [os.Open]: the second pass never runs and no file is created. *)
Theorem MineAssociationRules_read_error (w : World) (a : Arguments) :
  Validate a = None ->
  (fileLines w (Input a) = None ->
   MineAssociationRules w a = ([IOOpen (Input a)], Some (ErrOpen (Input a)))) /\
  (fileLines w (Input a) <> None -> scanFails w (Input a) = true ->
   MineAssociationRules w a = ([IOOpen (Input a)], Some (ErrScan (Input a)))).
Proof.
  intros Hv. unfold MineAssociationRules, countItems. rewrite Hv. split.
  - intros H. rewrite H. reflexivity.
  - intros Ho H. destruct (fileLines w (Input a)); [rewrite H; reflexivity | congruence].
Qed.

Lemma MineAssociationRules_read_error_witness :
  let a := {| Input := "in.csv"; Output := "rules.csv"; MinSupport := 0.5;
              MinConfidence := 0.5; MinLift := 1; ItemsetsPath := "" |} in
  Validate a = None /\
  (fileLines noFiles (Input a) = None ->
   MineAssociationRules noFiles a = ([IOOpen (Input a)], Some (ErrOpen (Input a)))) /\
  (fileLines noFiles (Input a) <> None -> scanFails noFiles (Input a) = true ->
   MineAssociationRules noFiles a = ([IOOpen (Input a)], Some (ErrScan (Input a)))).
Proof.
  intros a.
  assert (Hv : Validate a = None) by (vm_compute; reflexivity).
  split; [exact Hv|]. exact (MineAssociationRules_read_error noFiles a Hv).
Defined.

(** The root of the pass-2 tree counts the lines that keep at least one
    frequent item: a line whose filtered transaction is empty is skipped
    ([continue]) and adds nothing to the tree. *)
Theorem buildTree_rootCount (it : Itemizer) (frequency : itemCount) (minCount : Z)
    (lines : list string) :
  rootCount (buildTree it frequency minCount lines) =
  Z.of_nat (List.length
    (filter (fun line => negb (List.length
               (itemizerFilter it (splitComma line) (isFrequentItem frequency minCount)) =? 0)%nat)
            lines)).
Proof.
  unfold buildTree.
  assert (H : forall t, rootCount (fold_left (processTransaction it frequency minCount) lines t)
    = rootCount t + Z.of_nat (List.length
        (filter (fun line => negb (List.length
           (itemizerFilter it (splitComma line) (isFrequentItem frequency minCount)) =? 0)%nat)
         lines))).
  { induction lines as [|line lines IH]; intros t; simpl; [lia|].
    rewrite IH. unfold processTransaction.
    destruct (itemizerFilter it (splitComma line) (isFrequentItem frequency minCount));
      simpl; lia. }
  rewrite H. reflexivity.
Qed.
